(** * AI flashcard generator page: workflow controller and generation bridge

    A shallow embedding of the Svelte components [SourceSelector.svelte] and
    [AIFlashcardsPage.svelte] (routes/ai-flashcards).  The component
    variables become a record, every handler becomes a function on it, and
    the browser around the page (promises, timers, the bridge to Python and
    the backend RPCs) becomes an explicit event loop: one [step] per task,
    followed by the promise reactions that task queued. *)

From Stdlib Require Import List String Ascii NArith ZArith Bool Lia.
Import ListNotations.


(** ** JavaScript strings and thrown values *)

Module Js.

(** A JS string is a sequence of UTF-16 code units. *)
Definition str : Type := list N.

(** An ASCII literal of the source. *)
Definition lit (s : string) : str := map N_of_ascii (list_ascii_of_string s).

Fixpoint eqb (a b : str) : bool :=
  match a, b with
  | [], [] => true
  | x :: a', y :: b' => N.eqb x y && eqb a' b'
  | _, _ => false
  end.

(** [!s] for a string: only the empty string is falsy. *)
Definition is_empty (s : str) : bool :=
  match s with [] => true | _ :: _ => false end.

(** [a || b] on strings. *)
Definition or_else (a b : str) : str := if is_empty a then b else a.

(** Truthiness of an optional string field ([undefined] when absent). *)
Definition truthy (o : option str) : bool :=
  match o with Some s => negb (is_empty s) | None => false end.

(** ECMAScript WhiteSpace and LineTerminator code points, the ones
    [String.prototype.trim] strips; all of them are single code units. *)
Definition is_white_space (c : N) : bool :=
  (existsb (N.eqb c)
     [9; 10; 11; 12; 13; 32; 160; 5760; 8232; 8233; 8239; 8287; 12288; 65279]
   || ((8192 <=? c) && (c <=? 8202)))%N.

Fixpoint trimStart (s : str) : str :=
  match s with
  | [] => []
  | c :: s' => if is_white_space c then trimStart s' else s
  end.

Definition trimEnd (s : str) : str := rev (trimStart (rev s)).

Definition trim (s : str) : str := trimEnd (trimStart s).

(** What a [catch (e)] clause can receive: an [Error] object with its
    message, or any other value, kept as its [String(e)] rendering. *)
Inductive Thrown : Type :=
| ErrorObj (message : str)
| NonError (rendered : str).

(** [e instanceof Error ? e.message : String(e)] *)
Definition message_of (e : Thrown) : str :=
  match e with
  | ErrorObj m => m
  | NonError r => r
  end.

(** [s.startsWith(prefix)] and [s.endsWith(suffix)], on code units. *)
Fixpoint startsWith (s prefix : str) : bool :=
  match prefix, s with
  | [], _ => true
  | _ :: _, [] => false
  | p :: prefix', c :: s' => N.eqb c p && startsWith s' prefix'
  end.

Definition endsWith (s suffix : str) : bool :=
  startsWith (rev s) (rev suffix).

End Js.

(** ** Cards *)

(** [interface SimpleCard].  The numeric fields carry protobuf enum values
    and are modelled as integers: status 0 is Pending, 1 Approved,
    2 Rejected. *)
Record SimpleCard : Type := mkCard {
  id : Js.str;
  cardType : Z;
  front : Js.str;
  back : Js.str;
  suggestedTags : list Js.str;
  status : Z
}.

(** [{ ...card, status }] *)
Definition with_status (st : Z) (card : SimpleCard) : SimpleCard :=
  {| id := id card;
     cardType := cardType card;
     front := front card;
     back := back card;
     suggestedTags := suggestedTags card;
     status := st |}.

(** [(c) => c.status === n] *)
Definition has_status (n : Z) (c : SimpleCard) : bool := Z.eqb (status c) n.

(** The reactive declarations [$: approvedCount = ...] and its two
    siblings.  Svelte recomputes them in the flush that follows every
    assignment to [cards], before the next event is handled, so they are
    functions of [cards]. *)
Definition approvedCount (cards : list SimpleCard) : nat :=
  List.length (filter (has_status 1) cards).
Definition rejectedCount (cards : list SimpleCard) : nat :=
  List.length (filter (has_status 2) cards).
Definition pendingCount (cards : list SimpleCard) : nat :=
  List.length (filter (has_status 0) cards).

(** ** SourceSelector.svelte *)

Module SourceSelector.

Inductive SourceType : Type := TabFile | TabText | TabUrl.

(** The component's props, [initialText], [initialSourceName] and
    [initialUrl]. *)
Record Props : Type := {
  initialText : Js.str;
  initialSourceName : Js.str;
  initialUrl : Js.str
}.

Record State : Type := {
  sourceType : SourceType;
  textInput : Js.str;
  urlInput : Js.str;
  sourceName : Js.str;
  dragging : bool;
  isLoading : bool;
  error : option Js.str
}.

(** The variable initialisers, run when the component is created. *)
Definition create (p : Props) : State :=
  {| sourceType := TabText;
     textInput := initialText p;
     urlInput := initialUrl p;
     sourceName := initialSourceName p;
     dragging := false;
     isLoading := false;
     error := None |}.

(** The detail of the [generate] event. *)
Record Detail : Type := {
  text : Js.str;
  name : Js.str;
  url : Js.str
}.

Definition set_error (e : option Js.str) (s : State) : State :=
  {| sourceType := sourceType s;
     textInput := textInput s;
     urlInput := urlInput s;
     sourceName := sourceName s;
     dragging := dragging s;
     isLoading := isLoading s;
     error := e |}.

(** [handleGenerate]: the new component state and the event it
    dispatches, if any. *)
Definition handleGenerate (s : State) : State * option Detail :=
  if Js.is_empty (Js.trim (textInput s)) then
    (set_error
       (Some (Js.lit "Please provide text to generate flashcards from.")) s,
     None)
  else
    (s,
     Some {| text := textInput s;
             name := Js.or_else (sourceName s) (Js.lit "Untitled");
             url := urlInput s |}).

Definition set_sourceType (t : SourceType) (s : State) : State :=
  {| sourceType := t;
     textInput := textInput s;
     urlInput := urlInput s;
     sourceName := sourceName s;
     dragging := dragging s;
     isLoading := isLoading s;
     error := error s |}.

Definition set_textInput (t : Js.str) (s : State) : State :=
  {| sourceType := sourceType s;
     textInput := t;
     urlInput := urlInput s;
     sourceName := sourceName s;
     dragging := dragging s;
     isLoading := isLoading s;
     error := error s |}.

Definition set_sourceName (n : Js.str) (s : State) : State :=
  {| sourceType := sourceType s;
     textInput := textInput s;
     urlInput := urlInput s;
     sourceName := n;
     dragging := dragging s;
     isLoading := isLoading s;
     error := error s |}.

Definition set_dragging (b : bool) (s : State) : State :=
  {| sourceType := sourceType s;
     textInput := textInput s;
     urlInput := urlInput s;
     sourceName := sourceName s;
     dragging := b;
     isLoading := isLoading s;
     error := error s |}.

Definition set_isLoading (b : bool) (s : State) : State :=
  {| sourceType := sourceType s;
     textInput := textInput s;
     urlInput := urlInput s;
     sourceName := sourceName s;
     dragging := dragging s;
     isLoading := b;
     error := error s |}.

(** What the handlers read of a [File]: [file.name] and [file.type]. *)
Record File : Type := {
  file_name : Js.str;
  file_type : Js.str
}.

(** The condition under which [processFile] reads the file. *)
Definition is_text_file (file : File) : bool :=
  Js.startsWith (file_type file) (Js.lit "text/")
  || Js.endsWith (file_name file) (Js.lit ".txt")
  || Js.endsWith (file_name file) (Js.lit ".md").

(** [processFile] up to its [await file.text()], or to its end when the
    file is not read; the boolean tells whether the read was started. *)
Definition processFile (file : File) (s : State) : State * bool :=
  let s := set_isLoading true s in
  let s := set_error None s in
  let s := set_sourceName (file_name file) s in
  if is_text_file file then (s, true)
  else
    let s :=
      set_error
        (Some (Js.lit
           "This file type is not yet supported. Please use TXT or MD files."))
        s in
    (set_isLoading false s, false).

(** [processFile] from the outcome of [file.text()] to its end. *)
Definition resumeProcessFile (r : Js.str + Js.Thrown) (s : State) : State :=
  match r with
  | inl content =>
      let s := set_textInput content s in
      let s := set_sourceType TabText s in
      set_isLoading false s
  | inr e =>
      let s := set_error (Some (Js.message_of e)) s in
      set_isLoading false s
  end.

(** [handleFileSelect]; [files] is [input.files], empty when absent. *)
Definition handleFileSelect (files : list File) (s : State) : State * bool :=
  match files with
  | file :: _ => processFile file s
  | [] => (s, false)
  end.

(** [handleDrop]; [files] is [event.dataTransfer?.files]. *)
Definition handleDrop (files : list File) (s : State) : State * bool :=
  let s := set_dragging false s in
  match files with
  | file :: _ => processFile file s
  | [] => (s, false)
  end.

(** [handleDragOver] and [handleDragLeave] *)
Definition handleDragOver (s : State) : State := set_dragging true s.

Definition handleDragLeave (s : State) : State := set_dragging false s.

(** [handleUrlFetch] up to its [await]: the new state and the argument of
    [fetchUrlViaBackend], which goes out in the [fetch_url] bridge
    command, if the URL is not blank. *)
Definition handleUrlFetch (s : State) : State * option Js.str :=
  if Js.is_empty (Js.trim (urlInput s)) then (s, None)
  else
    let s := set_isLoading true s in
    let s := set_error None s in
    (s, Some (Js.trim (urlInput s))).

(** What [JSON.parse(response)] and the reads of [result.error],
    [result.text] and [result.sourceName] can give. *)
Inductive FetchReply : Type :=
| FetchThrows (e : Js.Thrown)
| FetchObject (error text sourceName : option Js.str).

(** The value [fetchUrlViaBackend] resolves with. *)
Record Fetched : Type := {
  fetched_text : Js.str;
  fetched_sourceName : Js.str
}.

(** The callback [fetchUrlViaBackend] hands to [bridgeCommand]: how the
    promise made for [url] is settled. *)
Definition fetchUrlViaBackend (url : Js.str) (reply : FetchReply)
  : Fetched + Js.Thrown :=
  match reply with
  | FetchThrows e => inr e
  | FetchObject err text name =>
      if Js.truthy err then
        inr (Js.ErrorObj (match err with Some m => m | None => [] end))
      else
        inl {| fetched_text :=
                 Js.or_else (match text with Some t => t | None => [] end) [];
               fetched_sourceName :=
                 Js.or_else (match name with Some n => n | None => [] end)
                            url |}
  end.

(** [handleUrlFetch] from the outcome of [fetchUrlViaBackend] to its
    end. *)
Definition resumeHandleUrlFetch (r : Fetched + Js.Thrown) (s : State)
  : State :=
  match r with
  | inl result =>
      let s := set_textInput (fetched_text result) s in
      let s :=
        set_sourceName (Js.or_else (fetched_sourceName result) (urlInput s))
                       s in
      let s := set_sourceType TabText s in
      set_isLoading false s
  | inr e =>
      let s := set_error (Some (Js.message_of e)) s in
      set_isLoading false s
  end.

End SourceSelector.

(** ** AIFlashcardsPage.svelte *)

Module Page.

(** [type Step] *)
Inductive Step : Type := source | generating | review | importing | done.

Definition step_eqb (a b : Step) : bool :=
  match a, b with
  | source, source | generating, generating | review, review
  | importing, importing | done, done => true
  | _, _ => false
  end.

(** [interface SimpleSession], the [session] prop. *)
Record SimpleSession : Type := {
  hasSession : bool;
  session_cards : list SimpleCard;
  session_sourceName : Js.str;
  session_sourceText : Js.str
}.

(** *** The browser around the component *)

(** The state of the promise that [generateFlashcardsViaBackend]
    returns. *)
Inductive Settled : Type :=
| Pending
| Fulfilled (generated : list SimpleCard)
| Rejected (reason : Js.Thrown).

(** One call of [generateFlashcardsViaBackend]: the arguments captured by
    its closures, its promise, whether the callback handed to
    [bridgeCommand] has run, and the timer set by [setTimeout] (the time
    it is due and whether it has run). *)
Record Invocation : Type := {
  arg_text : Js.str;
  arg_name : Js.str;
  promise : Settled;
  responded : bool;
  deadline : Z;
  fired : bool
}.

(** What the page sends out: bridge commands and backend RPCs. *)
Inductive Request : Type :=
| BridgeReady
| BridgeGenerate (text sourceName : Js.str)
| SaveSession (sourceName sourceText : Js.str) (cards : list SimpleCard)
| ClearSession
| ImportApprovedCards (cards : list SimpleCard) (targetDeckId : Z)
                      (additionalTags : list Js.str).

(** Who waits for the answer: [await] inside [handleGenerate], [await]
    inside [handleImport], or nobody ([.catch(console.error)], and bridge
    commands, whose answer comes through their own callback). *)
Inductive Awaiter : Type := AwaitedByGenerate | AwaitedByImport | Detached.

Record Call : Type := {
  request : Request;
  awaiter : Awaiter;
  answered : bool
}.

(** The component's variables, then the invocations made so far (the
    index is the identity of the promise), the requests sent so far, and
    the clock in milliseconds.  [pendingGenerateResolve = Some i] holds
    the [resolve] function of promise [i], [pendingGenerateReject = Some
    i] its [reject] function. *)
Record World : Type := {
  pendingGenerateResolve : option nat;
  pendingGenerateReject : option nat;
  currentStep : Step;
  cards : list SimpleCard;
  sourceName : Js.str;
  sourceText : Js.str;
  sourceUrl : Js.str;
  selectedDeckId : Z;
  error : option Js.str;
  importResult : option (Z * Z);
  invocations : list Invocation;
  calls : list Call;
  now : Z
}.

(** *** Assignments *)

Definition set_pending (r j : option nat) (w : World) : World :=
  {| pendingGenerateResolve := r; pendingGenerateReject := j;
     currentStep := currentStep w; cards := cards w;
     sourceName := sourceName w; sourceText := sourceText w;
     sourceUrl := sourceUrl w; selectedDeckId := selectedDeckId w;
     error := error w; importResult := importResult w;
     invocations := invocations w; calls := calls w; now := now w |}.

Definition set_step (s : Step) (w : World) : World :=
  {| pendingGenerateResolve := pendingGenerateResolve w;
     pendingGenerateReject := pendingGenerateReject w;
     currentStep := s; cards := cards w;
     sourceName := sourceName w; sourceText := sourceText w;
     sourceUrl := sourceUrl w; selectedDeckId := selectedDeckId w;
     error := error w; importResult := importResult w;
     invocations := invocations w; calls := calls w; now := now w |}.

Definition set_cards (cs : list SimpleCard) (w : World) : World :=
  {| pendingGenerateResolve := pendingGenerateResolve w;
     pendingGenerateReject := pendingGenerateReject w;
     currentStep := currentStep w; cards := cs;
     sourceName := sourceName w; sourceText := sourceText w;
     sourceUrl := sourceUrl w; selectedDeckId := selectedDeckId w;
     error := error w; importResult := importResult w;
     invocations := invocations w; calls := calls w; now := now w |}.

Definition set_source (text name : Js.str) (w : World) : World :=
  {| pendingGenerateResolve := pendingGenerateResolve w;
     pendingGenerateReject := pendingGenerateReject w;
     currentStep := currentStep w; cards := cards w;
     sourceName := name; sourceText := text;
     sourceUrl := sourceUrl w; selectedDeckId := selectedDeckId w;
     error := error w; importResult := importResult w;
     invocations := invocations w; calls := calls w; now := now w |}.

Definition set_sourceUrl (url : Js.str) (w : World) : World :=
  {| pendingGenerateResolve := pendingGenerateResolve w;
     pendingGenerateReject := pendingGenerateReject w;
     currentStep := currentStep w; cards := cards w;
     sourceName := sourceName w; sourceText := sourceText w;
     sourceUrl := url; selectedDeckId := selectedDeckId w;
     error := error w; importResult := importResult w;
     invocations := invocations w; calls := calls w; now := now w |}.

Definition set_selectedDeckId (d : Z) (w : World) : World :=
  {| pendingGenerateResolve := pendingGenerateResolve w;
     pendingGenerateReject := pendingGenerateReject w;
     currentStep := currentStep w; cards := cards w;
     sourceName := sourceName w; sourceText := sourceText w;
     sourceUrl := sourceUrl w; selectedDeckId := d;
     error := error w; importResult := importResult w;
     invocations := invocations w; calls := calls w; now := now w |}.

Definition set_error (e : option Js.str) (w : World) : World :=
  {| pendingGenerateResolve := pendingGenerateResolve w;
     pendingGenerateReject := pendingGenerateReject w;
     currentStep := currentStep w; cards := cards w;
     sourceName := sourceName w; sourceText := sourceText w;
     sourceUrl := sourceUrl w; selectedDeckId := selectedDeckId w;
     error := e; importResult := importResult w;
     invocations := invocations w; calls := calls w; now := now w |}.

Definition set_importResult (r : option (Z * Z)) (w : World) : World :=
  {| pendingGenerateResolve := pendingGenerateResolve w;
     pendingGenerateReject := pendingGenerateReject w;
     currentStep := currentStep w; cards := cards w;
     sourceName := sourceName w; sourceText := sourceText w;
     sourceUrl := sourceUrl w; selectedDeckId := selectedDeckId w;
     error := error w; importResult := r;
     invocations := invocations w; calls := calls w; now := now w |}.

Definition set_invocations (l : list Invocation) (w : World) : World :=
  {| pendingGenerateResolve := pendingGenerateResolve w;
     pendingGenerateReject := pendingGenerateReject w;
     currentStep := currentStep w; cards := cards w;
     sourceName := sourceName w; sourceText := sourceText w;
     sourceUrl := sourceUrl w; selectedDeckId := selectedDeckId w;
     error := error w; importResult := importResult w;
     invocations := l; calls := calls w; now := now w |}.

Definition set_calls (l : list Call) (w : World) : World :=
  {| pendingGenerateResolve := pendingGenerateResolve w;
     pendingGenerateReject := pendingGenerateReject w;
     currentStep := currentStep w; cards := cards w;
     sourceName := sourceName w; sourceText := sourceText w;
     sourceUrl := sourceUrl w; selectedDeckId := selectedDeckId w;
     error := error w; importResult := importResult w;
     invocations := invocations w; calls := l; now := now w |}.

Definition set_now (t : Z) (w : World) : World :=
  {| pendingGenerateResolve := pendingGenerateResolve w;
     pendingGenerateReject := pendingGenerateReject w;
     currentStep := currentStep w; cards := cards w;
     sourceName := sourceName w; sourceText := sourceText w;
     sourceUrl := sourceUrl w; selectedDeckId := selectedDeckId w;
     error := error w; importResult := importResult w;
     invocations := invocations w; calls := calls w; now := t |}.

(** Sending a request appends it to the log. *)
Definition send (r : Request) (a : Awaiter) (w : World) : World :=
  set_calls
    (calls w ++ [{| request := r; awaiter := a; answered := false |}]) w.

Fixpoint update_nth {A : Type} (n : nat) (f : A -> A) (l : list A) : list A :=
  match l, n with
  | [], _ => []
  | x :: l', O => f x :: l'
  | x :: l', S n' => x :: update_nth n' f l'
  end.

Definition set_promise (o : Settled) (inv : Invocation) : Invocation :=
  {| arg_text := arg_text inv; arg_name := arg_name inv; promise := o;
     responded := responded inv; deadline := deadline inv;
     fired := fired inv |}.

Definition mark_responded (inv : Invocation) : Invocation :=
  {| arg_text := arg_text inv; arg_name := arg_name inv;
     promise := promise inv; responded := true; deadline := deadline inv;
     fired := fired inv |}.

Definition mark_fired (inv : Invocation) : Invocation :=
  {| arg_text := arg_text inv; arg_name := arg_name inv;
     promise := promise inv; responded := responded inv;
     deadline := deadline inv; fired := true |}.

Definition mark_answered (c : Call) : Call :=
  {| request := request c; awaiter := awaiter c; answered := true |}.

(** Calling [resolve] or [reject] of promise [i]: a pending promise is
    settled and the function awaiting it is queued as a microtask; on a
    settled promise the call does nothing. *)
Definition settle (i : nat) (o : Settled) (w : World) : World * list nat :=
  match nth_error (invocations w) i with
  | Some inv =>
      match promise inv with
      | Pending =>
          (set_invocations (update_nth i (set_promise o) (invocations w)) w,
           [i])
      | _ => (w, [])
      end
  | None => (w, [])
  end.

(** *** Creation *)

(** The variable initialisers and [onMount].  [decks] lists the ids of
    [decks.entries]. *)
Definition create (decks : list Z) (session : SimpleSession) : World :=
  {| pendingGenerateResolve := None;
     pendingGenerateReject := None;
     currentStep := if hasSession session then review else source;
     cards := if hasSession session then session_cards session else [];
     sourceName := Js.or_else (session_sourceName session) [];
     sourceText := Js.or_else (session_sourceText session) [];
     sourceUrl := [];
     selectedDeckId :=
       match decks with
       | d :: _ => if Z.eqb d 0 then 0%Z else d
       | [] => 0%Z
       end;
     error := None;
     importResult := None;
     invocations := [];
     calls := [{| request := BridgeReady; awaiter := Detached;
                  answered := false |}];
     now := 0 |}.

(** *** The handlers *)

(** [generateFlashcardsViaBackend]: the executor of the new promise.  It
    stores the promise's two functions in the shared slot, sends the
    bridge command and arms a timer of 120000 ms.  The result is the
    index of the new promise. *)
Definition generateFlashcardsViaBackend (text name : Js.str) (w : World)
  : nat * World :=
  let i := List.length (invocations w) in
  let w := set_pending (Some i) (Some i) w in
  let w := send (BridgeGenerate text name) Detached w in
  let w :=
    set_invocations
      (invocations w ++
         [{| arg_text := text; arg_name := name; promise := Pending;
             responded := false; deadline := (now w + 120000)%Z;
             fired := false |}]) w in
  (i, w).

(** [handleGenerate] up to its first [await]. *)
Definition handleGenerate (text name url : Js.str) (w : World) : World :=
  let w := set_source text name w in
  let w := set_sourceUrl url w in
  let w := set_step generating w in
  let w := set_error None w in
  snd (generateFlashcardsViaBackend text name w).

(** [handleGenerate] from the [await] on promise [i] up to the [await]
    on [saveSession]; [text] and [name] are the arguments of the call
    that made promise [i]. *)
Definition resumeHandleGenerate (i : nat) (w : World) : World :=
  match nth_error (invocations w) i with
  | Some inv =>
      match promise inv with
      | Fulfilled generatedCards =>
          let w := set_cards generatedCards w in
          let w := set_step review w in
          send (SaveSession (arg_name inv) (arg_text inv) (cards w))
               AwaitedByGenerate w
      | Rejected e =>
          let w := set_error (Some (Js.message_of e)) w in
          set_step source w
      | Pending => w
      end
  | None => w
  end.

(** [handleGenerate] after the [await] on [saveSession]: a rejection
    lands in the same [catch]. *)
Definition finishHandleGenerate (r : option Js.Thrown) (w : World) : World :=
  match r with
  | None => w
  | Some e =>
      let w := set_error (Some (Js.message_of e)) w in
      set_step source w
  end.

(** What [JSON.parse(response)] followed by the read of [result.error]
    can give: an exception, or an object whose [error] is absent or a
    string. *)
Inductive BridgeReply : Type :=
| ReplyThrows (e : Js.Thrown)
| ReplyObject (error : option Js.str).

(** The callback handed to [bridgeCommand] by invocation [i]. *)
Definition bridgeCallback (i : nat) (reply : BridgeReply) (w : World)
  : World * list nat :=
  let w := set_invocations (update_nth i mark_responded (invocations w)) w in
  match reply with
  | ReplyObject err =>
      if Js.truthy err then
        let w := set_pending None None w in
        settle i
          (Rejected
             (Js.ErrorObj (match err with Some m => m | None => [] end)))
          w
      else (w, [])
  | ReplyThrows e =>
      let w := set_pending None None w in
      settle i (Rejected e) w
  end.

(** The argument of [window._aiFlashcardsOnGenerate]. *)
Record GenerateResult : Type := {
  result_cards : option (list SimpleCard);
  result_error : option Js.str
}.

(** [window._aiFlashcardsOnGenerate] *)
Definition aiFlashcardsOnGenerate (result : GenerateResult) (w : World)
  : World * list nat :=
  let '(w1, q) :=
    if Js.truthy (result_error result) then
      match pendingGenerateReject w with
      | Some p =>
          settle p
            (Rejected (Js.ErrorObj
               (match result_error result with Some m => m | None => [] end)))
            w
      | None => (w, [])
      end
    else
      match pendingGenerateResolve w with
      | Some p =>
          settle p
            (Fulfilled
               (match result_cards result with Some cs => cs | None => [] end))
            w
      | None => (w, [])
      end in
  (set_pending None None w1, q).

(** The function handed to [setTimeout] by invocation [i]. *)
Definition timeoutCallback (i : nat) (w : World) : World * list nat :=
  let w := set_invocations (update_nth i mark_fired (invocations w)) w in
  match pendingGenerateResolve w with
  | Some _ =>
      let w := set_pending None None w in
      settle i
        (Rejected (Js.ErrorObj (Js.lit "Generation timed out after 2 minutes")))
        w
  | None => (w, [])
  end.

(** [handleCardUpdate] *)
Definition handleCardUpdate (cardId : Js.str) (st : Z) (w : World) : World :=
  let w :=
    set_cards
      (map (fun card =>
              if Js.eqb (id card) cardId then with_status st card else card)
           (cards w)) w in
  send (SaveSession (sourceName w) (sourceText w) (cards w)) Detached w.

(** [approveAll] *)
Definition approveAll (w : World) : World :=
  let w := set_cards (map (fun card => with_status 1 card) (cards w)) w in
  send (SaveSession (sourceName w) (sourceText w) (cards w)) Detached w.

(** [rejectAll] *)
Definition rejectAll (w : World) : World :=
  let w := set_cards (map (fun card => with_status 2 card) (cards w)) w in
  send (SaveSession (sourceName w) (sourceText w) (cards w)) Detached w.

(** [handleImport] up to the [await] on [importApprovedCards]. *)
Definition handleImport (w : World) : World :=
  if Nat.eqb (approvedCount (cards w)) 0 then
    set_error (Some (Js.lit "No cards have been approved yet.")) w
  else
    let w := set_step importing w in
    let w := set_error None w in
    send (ImportApprovedCards (filter (has_status 1) (cards w))
                              (selectedDeckId w) [])
         AwaitedByImport w.

(** The answer of [importApprovedCards]. *)
Record ImportResponse : Type := {
  importedCount : Z;
  duplicateCount : Z;
  errors : list Js.str
}.

(** [handleImport] from the answer of [importApprovedCards] up to the
    [await] on [clearSession]. *)
Definition resumeHandleImport (r : ImportResponse + Js.Thrown) (w : World)
  : World :=
  match r with
  | inl result =>
      let w :=
        set_importResult
          (Some (importedCount result, duplicateCount result)) w in
      send ClearSession AwaitedByImport w
  | inr e =>
      let w := set_error (Some (Js.message_of e)) w in
      set_step review w
  end.

(** [handleImport] after the [await] on [clearSession]. *)
Definition finishHandleImport (r : option Js.Thrown) (w : World) : World :=
  match r with
  | None => set_step done w
  | Some e =>
      let w := set_error (Some (Js.message_of e)) w in
      set_step review w
  end.

(** [handleNewSession] *)
Definition handleNewSession (w : World) : World :=
  let w := set_cards [] w in
  let w := set_source [] [] w in
  let w := set_error None w in
  let w := set_importResult None w in
  let w := set_step source w in
  send ClearSession Detached w.

(** *** The event loop *)

(** The tasks the browser can run: the user's actions on the rendered
    page, the answer to a bridge command, the call of
    [_aiFlashcardsOnGenerate] by the Python side, a timer, the passing of
    time, and the answers of the backend RPCs ([k] is the position of the
    request in [calls]). *)
Inductive Event : Type :=
| Generate (d : SourceSelector.Detail)
| ApproveCard (cardId : Js.str)
| RejectCard (cardId : Js.str)
| ResetCard (cardId : Js.str)
| ApproveAll
| RejectAll
| SelectDeck (d : Z)
| ImportApproved
| NewSession
| BridgeResponse (i : nat) (reply : BridgeReply)
| OnGenerate (result : GenerateResult)
| TimerFired (i : nat)
| Elapse (ms : Z)
| ImportReturned (k : nat) (r : ImportResponse + Js.Thrown)
| SessionReturned (k : nat) (r : option Js.Thrown).

(** The answer to request [k]: it is marked answered and the function
    awaiting it, if any, goes on. *)
Definition importReturned (k : nat) (r : ImportResponse + Js.Thrown)
           (w : World) : World :=
  match nth_error (calls w) k with
  | Some c =>
      match request c, awaiter c with
      | ImportApprovedCards _ _ _, AwaitedByImport =>
          resumeHandleImport r
            (set_calls (update_nth k mark_answered (calls w)) w)
      | _, _ => w
      end
  | None => w
  end.

Definition sessionReturned (k : nat) (r : option Js.Thrown) (w : World)
  : World :=
  match nth_error (calls w) k with
  | Some c =>
      let w' := set_calls (update_nth k mark_answered (calls w)) w in
      match request c, awaiter c with
      | SaveSession _ _ _, AwaitedByGenerate => finishHandleGenerate r w'
      | ClearSession, AwaitedByImport => finishHandleImport r w'
      | SaveSession _ _ _, Detached => w'
      | ClearSession, Detached => w'
      | _, _ => w
      end
  | None => w
  end.

(** The body of one task, with the promises it settled. *)
Definition handle (e : Event) (w : World) : World * list nat :=
  match e with
  | Generate d =>
      (handleGenerate (SourceSelector.text d) (SourceSelector.name d)
                      (SourceSelector.url d) w, [])
  | ApproveCard cardId => (handleCardUpdate cardId 1 w, [])
  | RejectCard cardId => (handleCardUpdate cardId 2 w, [])
  | ResetCard cardId => (handleCardUpdate cardId 0 w, [])
  | ApproveAll => (approveAll w, [])
  | RejectAll => (rejectAll w, [])
  | SelectDeck d => (set_selectedDeckId d w, [])
  | ImportApproved => (handleImport w, [])
  | NewSession => (handleNewSession w, [])
  | BridgeResponse i reply => bridgeCallback i reply w
  | OnGenerate result => aiFlashcardsOnGenerate result w
  | TimerFired i => timeoutCallback i w
  | Elapse ms => (set_now (now w + ms)%Z w, [])
  | ImportReturned k r => (importReturned k r w, [])
  | SessionReturned k r => (sessionReturned k r w, [])
  end.

(** One turn of the event loop: the task, then the microtasks it
    queued. *)
Definition step (w : World) (e : Event) : World :=
  let '(w1, q) := handle e w in
  fold_left (fun w' i => resumeHandleGenerate i w') q w1.

(** Which tasks can run in [w].  The user's actions are those of the
    markup: the source form is there in step [source] and dispatches
    [generate] only with a non-blank text and a non-empty name, the
    review controls are there in step [review] with the import button
    disabled at [approvedCount === 0], and a button for a new session is
    there in every step but [source].  A bridge callback and a timer run
    once, a timer not before it is due, an RPC is answered once. *)
Definition enabled (w : World) (e : Event) : bool :=
  match e with
  | Generate d =>
      step_eqb (currentStep w) source
      && negb (Js.is_empty (Js.trim (SourceSelector.text d)))
      && negb (Js.is_empty (SourceSelector.name d))
  | ApproveCard _ | RejectCard _ | ResetCard _
  | ApproveAll | RejectAll | SelectDeck _ =>
      step_eqb (currentStep w) review
  | ImportApproved =>
      step_eqb (currentStep w) review
      && negb (Nat.eqb (approvedCount (cards w)) 0)
  | NewSession => negb (step_eqb (currentStep w) source)
  | BridgeResponse i _ =>
      match nth_error (invocations w) i with
      | Some inv => negb (responded inv)
      | None => false
      end
  | OnGenerate _ => true
  | TimerFired i =>
      match nth_error (invocations w) i with
      | Some inv => negb (fired inv) && (deadline inv <=? now w)%Z
      | None => false
      end
  | Elapse ms => (0 <=? ms)%Z
  | ImportReturned k _ =>
      match nth_error (calls w) k with
      | Some c =>
          negb (answered c)
          && match request c with
             | ImportApprovedCards _ _ _ => true
             | _ => false
             end
      | None => false
      end
  | SessionReturned k _ =>
      match nth_error (calls w) k with
      | Some c =>
          negb (answered c)
          && match request c with
             | SaveSession _ _ _ | ClearSession => true
             | _ => false
             end
      | None => false
      end
  end.

(** A run of the event loop; [None] when a task could not have run. *)
Fixpoint run (w : World) (es : list Event) : option World :=
  match es with
  | [] => Some w
  | e :: es' => if enabled w e then run (step w e) es' else None
  end.

(** The states the page can be in. *)
Definition reachable (w : World) : Prop :=
  exists decks session es, run (create decks session) es = Some w.

(** *** The markup *)

(** What the [{#if currentStep === ...}] chain renders. *)
Inductive View : Type :=
| SourceView (props : SourceSelector.Props)
| GeneratingView
| ReviewView (pending approved rejected : nat) (error : option Js.str)
             (cards : list SimpleCard) (importDisabled : bool)
| ImportingView
| DoneView (importResult : option (Z * Z)).

Definition render (w : World) : View :=
  match currentStep w with
  | source =>
      SourceView
        {| SourceSelector.initialText := sourceText w;
           SourceSelector.initialSourceName := sourceName w;
           SourceSelector.initialUrl := sourceUrl w |}
  | generating => GeneratingView
  | review =>
      ReviewView (pendingCount (cards w)) (approvedCount (cards w))
                 (rejectedCount (cards w)) (error w) (cards w)
                 (Nat.eqb (approvedCount (cards w)) 0)
  | importing => ImportingView
  | done => DoneView (importResult w)
  end.

(** [showNewButton={currentStep !== "source"}] *)
Definition showNewButton (w : World) : bool :=
  negb (step_eqb (currentStep w) source).

(** A click on the button of the source form, which the page renders in
    step [source]: the form's [handleGenerate], then the page's handler
    of the [generate] event if one was dispatched. *)
Definition submit (sel : SourceSelector.State) (w : World)
  : SourceSelector.State * World :=
  match SourceSelector.handleGenerate sel with
  | (sel', Some d) => (sel', step w (Generate d))
  | (sel', None) => (sel', w)
  end.

End Page.

(** ** The route: +page.ts and index.ts *)

Module Route.

(** The copy the loader makes of a card of the response. *)
Definition copy_card (c : SimpleCard) : SimpleCard :=
  {| id := id c;
     cardType := cardType c;
     front := front c;
     back := back c;
     suggestedTags := map (fun t => t) (suggestedTags c);
     status := status c |}.

(** The conversion of [sessionResponse], which is [null] when
    [loadSession] failed ([.catch(() => null)]), to the [session] prop. *)
Definition toSimpleSession (sessionResponse : option Page.SimpleSession)
  : Page.SimpleSession :=
  match sessionResponse with
  | Some r =>
      {| Page.hasSession := Page.hasSession r;
         Page.session_cards := map copy_card (Page.session_cards r);
         Page.session_sourceName := Page.session_sourceName r;
         Page.session_sourceText := Page.session_sourceText r |}
  | None =>
      {| Page.hasSession := false;
         Page.session_cards := [];
         Page.session_sourceName := [];
         Page.session_sourceText := [] |}
  end.

(** [setupAIFlashcardsPage] once its three promises are there: the page
    created with the decks and the converted session. *)
Definition setupAIFlashcardsPage (decks : list Z)
           (sessionResponse : option Page.SimpleSession) : Page.World :=
  Page.create decks (toSimpleSession sessionResponse).

End Route.

(** * Vocabulary of the statements *)

Import Page.

(** What it means for [c'] to be [c] with its status replaced by [st]. *)
Definition restatused (st : Z) (c c' : SimpleCard) : Prop :=
  status c' = st /\ id c' = id c /\ cardType c' = cardType c /\
  front c' = front c /\ back c' = back c /\
  suggestedTags c' = suggestedTags c.

(** The request [importApprovedCards] as [handleImport] sends it. *)
Definition import_call (w : World) (sent : list SimpleCard) : Call :=
  {| request := ImportApprovedCards sent (selectedDeckId w) [];
     awaiter := AwaitedByImport;
     answered := false |}.

(** The requests sent, without the marks of what was answered. *)
Definition requests (w : World) : list Request := map request (calls w).

(** The promises made so far, and the arguments [text] and [name] of the
    calls of [handleGenerate] that made them. *)
Definition promises (w : World) : list Settled := map promise (invocations w).

Definition submitted (w : World) : list (Js.str * Js.str) :=
  map (fun inv => (arg_text inv, arg_name inv)) (invocations w).

(** The index of the promise made last. *)
Definition latest (w : World) : nat := List.length (invocations w) - 1.

(** The pending-completion slot: its two variables are null together or
    hold the functions of one promise, which is then the one made last and
    still pending.  In step [generating] the promise made last is pending
    and was made from the text and the name the page still holds. *)
Record slot_invariant (w : World) : Prop := {
  slot_paired : pendingGenerateResolve w = pendingGenerateReject w;
  slot_latest_pending :
    forall p, pendingGenerateResolve w = Some p ->
              p = latest w /\ nth_error (promises w) p = Some Pending;
  generating_pending :
    currentStep w = generating ->
    nth_error (promises w) (latest w) = Some Pending;
  generating_submitted :
    currentStep w = generating ->
    nth_error (submitted w) (latest w) = Some (sourceText w, sourceName w)
}.

(** Promise [i] settled with [o] and the function awaiting it resumed:
    what [settle] and the microtask after it do to a pending promise. *)
Definition delivered (i : nat) (o : Settled) (w : World) : World :=
  let w1 := set_invocations (update_nth i (set_promise o) (invocations w)) w in
  match o, nth_error (submitted w) i with
  | Fulfilled cs, Some (text, name) =>
      send (SaveSession name text cs) AwaitedByGenerate
           (set_step review (set_cards cs w1))
  | Rejected e, _ => set_step source (set_error (Some (Js.message_of e)) w1)
  | _, _ => w1
  end.

(** [resolve] or [reject] of promise [i] called with [o], microtask
    included: nothing happens unless the promise is pending. *)
Definition try_settle (i : nat) (o : Settled) (w : World) : World :=
  match nth_error (promises w) i with
  | Some Pending => delivered i o w
  | _ => w
  end.

(** The microtasks queued by a task, run in order. *)
Definition drain (r : World * list nat) : World :=
  fold_left (fun w' i => resumeHandleGenerate i w') (snd r) (fst r).

(** The failure an answer to the bridge command carries, if any: an
    exception while reading it, or a non-empty [error]. *)
Definition failure_of (reply : BridgeReply) : option Js.Thrown :=
  match reply with
  | ReplyThrows e => Some e
  | ReplyObject (Some (c :: m)) => Some (Js.ErrorObj (c :: m))
  | ReplyObject _ => None
  end.

(** The bridge callback of invocation [i] has run. *)
Definition responded_at (i : nat) (w : World) : World :=
  set_invocations (update_nth i mark_responded (invocations w)) w.

(** The timer of invocation [i] has run. *)
Definition fired_at (i : nat) (w : World) : World :=
  set_invocations (update_nth i mark_fired (invocations w)) w.

(** The outcome a call of [_aiFlashcardsOnGenerate] carries: a failure
    when [error] is a non-empty string, else the cards. *)
Definition outcome_of (r : GenerateResult) : Settled :=
  match result_error r with
  | Some (c :: m) => Rejected (Js.ErrorObj (c :: m))
  | _ => Fulfilled (match result_cards r with Some cs => cs | None => [] end)
  end.

(** The events that resolve a request: an answer to the bridge command
    that carries a failure, a call of [_aiFlashcardsOnGenerate], a
    timer. *)
Inductive resolution : Event -> Prop :=
| by_immediate_error : forall i reply e,
    failure_of reply = Some e -> resolution (BridgeResponse i reply)
| by_completion : forall result, resolution (OnGenerate result)
| by_timeout : forall i, resolution (TimerFired i).

(** A generation failure as [handleGenerate] sees it in [w]: the promise
    made last is rejected by the answer to its bridge command, by
    [_aiFlashcardsOnGenerate] through the slot, or by its timer. *)
Inductive generation_failure (w : World) : Event -> Js.str -> Prop :=
| immediate_error : forall reply e,
    failure_of reply = Some e ->
    generation_failure w (BridgeResponse (latest w) reply) (Js.message_of e)
| asynchronous_failure : forall result e,
    outcome_of result = Rejected e ->
    pendingGenerateReject w <> None ->
    generation_failure w (OnGenerate result) (Js.message_of e)
| timed_out :
    pendingGenerateResolve w <> None ->
    generation_failure w (TimerFired (latest w))
      (Js.lit "Generation timed out after 2 minutes").

(** *** Sample runs *)

Definition no_session : SimpleSession :=
  {| hasSession := false; session_cards := [];
     session_sourceName := []; session_sourceText := [] |}.

Definition paris : SourceSelector.Detail :=
  {| SourceSelector.text := Js.lit "Paris is the capital of France.";
     SourceSelector.name := Js.lit "Untitled";
     SourceSelector.url := [] |}.

Definition capital (st : Z) : SimpleCard :=
  {| id := Js.lit "c1"; cardType := 0;
     front := Js.lit "What is the capital of France?";
     back := Js.lit "Paris"; suggestedTags := []; status := st |}.

Definition acknowledged : BridgeReply := ReplyObject None.

Definition completed (cs : list SimpleCard) : GenerateResult :=
  {| result_cards := Some cs; result_error := None |}.

(** The page after the run [es] from a fresh start with one deck. *)
Definition after (es : list Event) : World :=
  match run (create [1%Z] no_session) es with
  | Some w => w
  | None => create [1%Z] no_session
  end.

(** A first generation fails at once (no API key, say), the user submits
    again ten seconds later and the second request is acknowledged; 120
    seconds after the first submission the timer of the first invocation
    runs, and ten seconds later the timer of the second. *)
Definition stale_timer_run : list Event :=
  [ Generate paris;
    BridgeResponse 0 (ReplyObject (Some (Js.lit "No API key configured")));
    Elapse 10000;
    Generate paris;
    BridgeResponse 1 acknowledged;
    Elapse 110000;
    TimerFired 0;
    Elapse 10000;
    TimerFired 1 ].

(** The page waiting for the cards of an acknowledged request. *)
Definition waiting : World :=
  after [Generate paris; BridgeResponse 0 acknowledged].

(** One card generated and approved, the import requested: the requests
    sent are, in order, the two bridge commands, the [saveSession] of
    [handleGenerate], the [saveSession] of the approval and
    [importApprovedCards] at position 4. *)
Definition import_run : list Event :=
  [ Generate paris;
    BridgeResponse 0 acknowledged;
    OnGenerate (completed [capital 0]);
    ApproveCard (Js.lit "c1");
    ImportApproved ].

Definition imported_one : ImportResponse :=
  {| importedCount := 1; duplicateCount := 0; errors := [] |}.

Definition storage_failure : Js.Thrown :=
  Js.ErrorObj (Js.lit "500: could not remove session file").

(** The page when the timer of its only request is due. *)
Definition overdue : World :=
  after [Generate paris; BridgeResponse 0 acknowledged; Elapse 120000].

(** The source form with a text typed in and no name. *)
Definition typed : SourceSelector.State :=
  {| SourceSelector.sourceType := SourceSelector.TabText;
     SourceSelector.textInput := Js.lit "Paris is the capital of France.";
     SourceSelector.urlInput := [];
     SourceSelector.sourceName := [];
     SourceSelector.dragging := false;
     SourceSelector.isLoading := false;
     SourceSelector.error := None |}.

(** A restored session with one approved and one rejected card. *)
Definition restored : World :=
  create [1%Z]
    {| hasSession := true;
       session_cards := [capital 1; with_status 2 (capital 0)];
       session_sourceName := Js.lit "notes.txt";
       session_sourceText := Js.lit "Paris is the capital of France." |}.

(** *** The source form *)

(** A fetch whose answer comes before the user touches the form again:
    [handleUrlFetch] from the click to its end. *)
Definition fetch_url (s : SourceSelector.State)
           (reply : SourceSelector.FetchReply) : SourceSelector.State :=
  match SourceSelector.handleUrlFetch s with
  | (s1, Some url) =>
      SourceSelector.resumeHandleUrlFetch
        (SourceSelector.fetchUrlViaBackend url reply) s1
  | (s1, None) => s1
  end.

(** A drop whose file is read, or not, before the user touches the form
    again: [handleDrop] from the event to the end of [processFile]. *)
Definition drop_files (files : list SourceSelector.File)
           (content : Js.str + Js.Thrown) (s : SourceSelector.State)
  : SourceSelector.State :=
  match SourceSelector.handleDrop files s with
  | (s1, true) => SourceSelector.resumeProcessFile content s1
  | (s1, false) => s1
  end.

(** *** Review, steps and requests *)

Definition is_review_op (e : Event) : bool :=
  match e with
  | ApproveCard _ | RejectCard _ | ResetCard _ | ApproveAll | RejectAll => true
  | _ => false
  end.

Definition known_status (c : SimpleCard) : Prop :=
  status c = 0%Z \/ status c = 1%Z \/ status c = 2%Z.

(** The events [es] handled one after the other. *)
Definition play (w : World) (es : list Event) : World := fold_left step es w.

(** [c'] is [c] but for its status. *)
Definition same_content (c c' : SimpleCard) : Prop :=
  id c' = id c /\ cardType c' = cardType c /\ front c' = front c /\
  back c' = back c /\ suggestedTags c' = suggestedTags c.

(** The detached [saveSession] a review action sends. *)
Definition autosave (w : World) (cs : list SimpleCard) : Call :=
  {| request := SaveSession (sourceName w) (sourceText w) cs;
     awaiter := Detached;
     answered := false |}.

(** The step a turn can end in. *)
Definition entered (w : World) (e : Event) (s : Step) : Prop :=
  s = currentStep w \/ s = source \/ s = review \/
  (s = generating /\ exists d, e = Generate d) \/
  (s = importing /\ e = ImportApproved /\ approvedCount (cards w) <> 0) \/
  (s = done /\
   exists k c, e = SessionReturned k None /\
               nth_error (calls w) k = Some c /\
               request c = ClearSession /\ awaiter c = AwaitedByImport).

(** What holds of an import request. *)
Definition import_request_ok (c : Call) : Prop :=
  forall sent deck tags,
    request c = ImportApprovedCards sent deck tags ->
    sent <> [] /\ Forall (fun x => status x = 1%Z) sent /\ tags = [] /\
    awaiter c = AwaitedByImport.

(** While a generation is awaited the page holds a text that is not blank
    and a name that is not empty. *)
Definition holds_payload (w : World) : Prop :=
  currentStep w = generating ->
  Js.trim (sourceText w) <> [] /\ sourceName w <> [].

(** *** Further sample inputs *)

Definition example_url : Js.str := Js.lit "https://example.org/france".

Definition fetched_page : SourceSelector.FetchReply :=
  SourceSelector.FetchObject
    None (Some (Js.lit "Paris is the capital of France.")) None.

Definition unreadable : SourceSelector.FetchReply :=
  SourceSelector.FetchThrows
    (Js.ErrorObj (Js.lit "Unexpected end of JSON input")).

(** The form with a text typed in and a URL with a blank in front. *)
Definition typed_with_url : SourceSelector.State :=
  {| SourceSelector.sourceType := SourceSelector.TabUrl;
     SourceSelector.textInput := Js.lit "Paris is the capital of France.";
     SourceSelector.urlInput := Js.lit " https://example.org/france";
     SourceSelector.sourceName := [];
     SourceSelector.dragging := false;
     SourceSelector.isLoading := false;
     SourceSelector.error := None |}.

Definition slides : SourceSelector.File :=
  {| SourceSelector.file_name := Js.lit "slides.pdf";
     SourceSelector.file_type := Js.lit "application/pdf" |}.

Definition stored : SimpleSession :=
  {| hasSession := true;
     session_cards := [capital 1; with_status 2 (capital 0)];
     session_sourceName := Js.lit "notes.txt";
     session_sourceText := Js.lit "Paris is the capital of France." |}.

(** The page after a first request has failed at once. *)
Definition failed_once : World :=
  after [Generate paris;
         BridgeResponse 0
           (ReplyObject (Some (Js.lit "No API key configured")))].

(** The page awaiting a second request while the timer of the first, which
    failed at once, is due. *)
Definition second_request : World :=
  after [Generate paris;
         BridgeResponse 0
           (ReplyObject (Some (Js.lit "No API key configured")));
         Elapse 10000;
         Generate paris;
         BridgeResponse 1 acknowledged;
         Elapse 110000].

(** *** Runs on which the bridge or the commit goes wrong *)

(** A request is acknowledged and times out; the user submits again and
    the second request is acknowledged. *)
Definition retry_after_timeout : list Event :=
  [ Generate paris;
    BridgeResponse 0 acknowledged;
    Elapse 120000;
    TimerFired 0;
    Generate paris;
    BridgeResponse 1 acknowledged ].

(** The completion of the first request, arriving late. *)
Definition late_completion : Event := OnGenerate (completed [capital 0]).

(** A request fails at once. *)
Definition immediate_failure_run : list Event :=
  [ Generate paris;
    BridgeResponse 0 (ReplyObject (Some (Js.lit "No API key configured"))) ].

(** As [stale_timer_run] up to the timer of the first invocation. *)
Definition slot_lost_run : list Event :=
  [ Generate paris;
    BridgeResponse 0 (ReplyObject (Some (Js.lit "No API key configured")));
    Elapse 10000;
    Generate paris;
    BridgeResponse 1 acknowledged;
    Elapse 110000;
    TimerFired 0 ].

(** A failure of the provider, reported through the completion callback. *)
Definition provider_failure : Event :=
  OnGenerate {| result_cards := None;
                result_error := Some (Js.lit "Rate limit exceeded") |}.

(** The import of [import_run] returns its result, then the awaited
    [clearSession], request 5, fails. *)
Definition clear_failure_run : list Event :=
  import_run ++
  [ ImportReturned 4 (inl imported_one);
    SessionReturned 5 (Some storage_failure) ].

(** * Properties *)

(** ** Strings *)

Lemma js_eqb_eq : forall a b, Js.eqb a b = true <-> a = b.
Proof.
  induction a as [|x a IH]; destruct b as [|y b]; simpl;
    try (split; [discriminate | discriminate]); try tauto.
  rewrite andb_true_iff, N.eqb_eq, IH.
  split; [intros [-> ->]; reflexivity | intros H; inversion H; auto].
Qed.

Lemma js_eqb_neq : forall a b, Js.eqb a b = false <-> a <> b.
Proof.
  intros a b. rewrite <- js_eqb_eq. destruct (Js.eqb a b); split;
    congruence.
Qed.

Lemma trimStart_nil_iff : forall s,
  Js.trimStart s = [] <-> forallb Js.is_white_space s = true.
Proof.
  induction s as [|c s IH]; simpl; [tauto|].
  destruct (Js.is_white_space c); simpl; [exact IH|].
  split; discriminate.
Qed.

Lemma trimStart_head : forall s c t,
  Js.trimStart s = c :: t -> Js.is_white_space c = false.
Proof.
  induction s as [|x s IH]; simpl; intros c t H; [discriminate|].
  destruct (Js.is_white_space x) eqn:E; [eauto|].
  inversion H; subst; assumption.
Qed.

Lemma forallb_reverse : forall (A : Type) (f : A -> bool) l,
  forallb f (rev l) = forallb f l.
Proof.
  intros A f l. induction l as [|x l IH]; simpl; [reflexivity|].
  rewrite forallb_app, IH. simpl. rewrite andb_true_r. apply andb_comm.
Qed.

Lemma trimEnd_nil_iff : forall s,
  Js.trimEnd s = [] <-> forallb Js.is_white_space s = true.
Proof.
  intros s. unfold Js.trimEnd.
  rewrite <- (forallb_reverse _ Js.is_white_space s), <- trimStart_nil_iff.
  split; intros H.
  - apply (f_equal (@rev N)) in H. rewrite rev_involutive in H. exact H.
  - rewrite H. reflexivity.
Qed.

(** [trim] gives the empty string exactly on the strings made of white
    space only, the empty one among them. *)
Lemma trim_nil_iff : forall s,
  Js.trim s = [] <-> forallb Js.is_white_space s = true.
Proof.
  intros s. unfold Js.trim. rewrite trimEnd_nil_iff.
  rewrite <- (trimStart_nil_iff s).
  destruct (Js.trimStart s) as [|c t] eqn:E; [simpl; split; reflexivity|].
  simpl. rewrite (trimStart_head s c t E). simpl. split; discriminate.
Qed.

(** ** The list of cards *)

(** [{ ...card, status }] touches the status only. *)
Lemma with_status_fields : forall st c,
  status (with_status st c) = st /\
  id (with_status st c) = id c /\
  cardType (with_status st c) = cardType c /\
  front (with_status st c) = front c /\
  back (with_status st c) = back c /\
  suggestedTags (with_status st c) = suggestedTags c.
Proof. intros st c. repeat split. Qed.

Lemma Forall2_map_r : forall (A B : Type) (R : A -> B -> Prop) (f : A -> B) l,
  (forall x, In x l -> R x (f x)) -> Forall2 R l (map f l).
Proof.
  intros A B R f l. induction l as [|x l IH]; simpl; intros H; constructor.
  - apply H. now left.
  - apply IH. intros y Hy. apply H. now right.
Qed.

(** C8: [approveAll] gives every card status 1 and [rejectAll] gives every
    card status 2, whatever the status was before; the cards keep their
    number, their order and all their other fields. *)
Theorem bulk_status_C8 : forall w,
  Forall2 (restatused 1) (cards w) (cards (approveAll w)) /\
  Forall2 (restatused 2) (cards w) (cards (rejectAll w)) /\
  Forall2 (restatused 1) (cards w) (cards (step w ApproveAll)) /\
  Forall2 (restatused 2) (cards w) (cards (step w RejectAll)).
Proof.
  intros w. repeat split; cbn; apply Forall2_map_r; intros c _;
    apply with_status_fields.
Qed.

(** C10: [handleCardUpdate] keeps the number and the order of the cards;
    a card with the given id has its status replaced and nothing else, a
    card with another id is unchanged; when no card has the given id the
    list is unchanged. *)
Theorem card_update_C10 : forall w cardId st,
  Forall2 (fun c c' =>
             (id c = cardId -> restatused st c c') /\
             (id c <> cardId -> c' = c))
          (cards w) (cards (handleCardUpdate cardId st w)) /\
  List.length (cards (handleCardUpdate cardId st w)) = List.length (cards w) /\
  ((forall c, In c (cards w) -> id c <> cardId) ->
   cards (handleCardUpdate cardId st w) = cards w).
Proof.
  intros w cardId st. cbn. repeat split.
  - apply Forall2_map_r. intros c _.
    destruct (Js.eqb (id c) cardId) eqn:E.
    + apply js_eqb_eq in E. split; [intros _; apply with_status_fields|].
      intros H; contradiction.
    + apply js_eqb_neq in E. split; [intros H; contradiction | reflexivity].
  - apply length_map.
  - intros H. rewrite <- (map_id (cards w)) at 2. apply map_ext_in.
    intros c Hc. apply H in Hc. apply js_eqb_neq in Hc. rewrite Hc.
    reflexivity.
Qed.

(** ** Committing the review *)

Lemma step_ImportApproved : forall w, step w ImportApproved = handleImport w.
Proof. reflexivity. Qed.

(** C9: the import request carries the approved cards and only them: the
    cards of status 1, in their order. *)
Theorem import_sends_approved_C9 : forall w,
  approvedCount (cards w) <> 0 ->
  exists sent,
    calls (step w ImportApproved) = calls w ++ [import_call w sent] /\
    sent = filter (has_status 1) (cards w) /\
    (forall c, In c sent <-> In c (cards w) /\ status c = 1%Z) /\
    (forall c, In c (cards w) -> status c <> 1%Z -> ~ In c sent).
Proof.
  intros w H. exists (filter (has_status 1) (cards w)).
  rewrite step_ImportApproved. unfold handleImport.
  apply Nat.eqb_neq in H. rewrite H. cbn.
  assert (Hin : forall c, In c (filter (has_status 1) (cards w)) <->
                          In c (cards w) /\ status c = 1%Z).
  { intros c. rewrite filter_In. unfold has_status. rewrite Z.eqb_eq.
    reflexivity. }
  repeat split; try apply Hin; auto.
  intros c _ Hs Hc. apply Hin in Hc. tauto.
Qed.

(** C4: in step [review], a commit with no approved card is refused: the
    step stays [review], nothing is sent and the error message is set, all
    else unchanged; with an approved card the step becomes [importing] and
    the import request is sent. *)
Theorem import_guard_C4 : forall w,
  currentStep w = review ->
  (approvedCount (cards w) = 0 ->
   step w ImportApproved =
     set_error (Some (Js.lit "No cards have been approved yet.")) w /\
   currentStep (step w ImportApproved) = review /\
   calls (step w ImportApproved) = calls w /\
   error (step w ImportApproved) <> None) /\
  (approvedCount (cards w) <> 0 ->
   currentStep (step w ImportApproved) = importing /\
   calls (step w ImportApproved) =
     calls w ++ [import_call w (filter (has_status 1) (cards w))] /\
   error (step w ImportApproved) = None).
Proof.
  intros w Hrev. rewrite step_ImportApproved. unfold handleImport.
  split; intros H.
  - rewrite H. cbn. repeat split; [assumption | discriminate].
  - apply Nat.eqb_neq in H. rewrite H. cbn. repeat split.
Qed.

(** ** Submitting the source *)

(** C3: in step [source], a submission whose text is not blank dispatches
    the [generate] event and the step becomes [generating]; a submission
    whose text is empty or white space only sets the form's error message,
    dispatches nothing and leaves the page as it is, in step [source]. *)
Theorem submit_C3 : forall sel w,
  currentStep w = source ->
  (Js.trim (SourceSelector.textInput sel) <> [] ->
   snd (SourceSelector.handleGenerate sel) <> None /\
   currentStep (snd (submit sel w)) = generating /\
   currentStep (snd (submit sel w)) <> currentStep w /\
   sourceText (snd (submit sel w)) = SourceSelector.textInput sel) /\
  (forallb Js.is_white_space (SourceSelector.textInput sel) = true ->
   Js.trim (SourceSelector.textInput sel) = [] /\
   snd (SourceSelector.handleGenerate sel) = None /\
   SourceSelector.error (fst (submit sel w)) =
     Some (Js.lit "Please provide text to generate flashcards from.") /\
   snd (submit sel w) = w /\
   currentStep (snd (submit sel w)) = source).
Proof.
  intros sel w Hsrc. unfold submit, SourceSelector.handleGenerate. split.
  - intros H. destruct (Js.trim (SourceSelector.textInput sel)) eqn:E;
      [contradiction|].
    cbn. rewrite Hsrc. repeat split; discriminate.
  - intros H. apply trim_nil_iff in H. rewrite H. cbn.
    repeat split; assumption.
Qed.

(** ** Lists updated in place *)

Lemma length_update_nth : forall (A : Type) (f : A -> A) l n,
  List.length (update_nth n f l) = List.length l.
Proof.
  intros A f l. induction l as [|x l IH]; intros [|n]; simpl; auto.
Qed.

Lemma map_update_nth : forall (A B : Type) (g : A -> B) (f : A -> A)
                              (h : B -> B) l n,
  (forall x, g (f x) = h (g x)) ->
  map g (update_nth n f l) = update_nth n h (map g l).
Proof.
  intros A B g f h l n H. revert n.
  induction l as [|x l IH]; intros [|n]; simpl; auto; f_equal; auto.
Qed.

Lemma map_update_nth_same : forall (A B : Type) (g : A -> B) (f : A -> A) l n,
  (forall x, g (f x) = g x) ->
  map g (update_nth n f l) = map g l.
Proof.
  intros A B g f l n H. revert n.
  induction l as [|x l IH]; intros [|n]; simpl; auto; f_equal; auto.
Qed.

Lemma nth_error_update_nth_eq : forall (A : Type) (f : A -> A) l n,
  nth_error (update_nth n f l) n = option_map f (nth_error l n).
Proof.
  intros A f l. induction l as [|x l IH]; intros [|n]; simpl; auto.
Qed.

Lemma nth_error_update_nth_neq : forall (A : Type) (f : A -> A) l n m,
  n <> m -> nth_error (update_nth n f l) m = nth_error l m.
Proof.
  intros A f l. induction l as [|x l IH]; intros [|n] [|m] H; simpl; auto.
  congruence.
Qed.

Lemma nth_error_snoc : forall (A : Type) (l : list A) x,
  nth_error (l ++ [x]) (List.length l) = Some x.
Proof.
  intros A l x. rewrite nth_error_app2 by lia. rewrite Nat.sub_diag.
  reflexivity.
Qed.

(** ** The event loop, equationally *)

Lemma step_drain : forall w e, step w e = drain (handle e w).
Proof. intros w e. unfold step, drain. destruct (handle e w); reflexivity. Qed.

Lemma drain_settle_with : forall (f : World -> World) i o w,
  (forall v, resumeHandleGenerate i (f v) = f (resumeHandleGenerate i v)) ->
  drain (let '(w1, q) := settle i o w in (f w1, q)) = f (try_settle i o w).
Proof.
  intros f i o w Hcomm. unfold settle, try_settle, promises.
  rewrite nth_error_map.
  destruct (nth_error (invocations w) i) as [inv|] eqn:E; simpl; [|reflexivity].
  destruct (promise inv) eqn:P; simpl; try reflexivity.
  unfold drain. simpl. rewrite Hcomm. f_equal.
  unfold resumeHandleGenerate, delivered, submitted.
  cbn [invocations set_invocations].
  rewrite nth_error_update_nth_eq, nth_error_map, E. simpl.
  destruct o; reflexivity.
Qed.

Lemma drain_settle : forall i o w, drain (settle i o w) = try_settle i o w.
Proof.
  intros i o w.
  rewrite <- (drain_settle_with (fun v => v) i o w) by reflexivity.
  destruct (settle i o w); reflexivity.
Qed.

Lemma resume_set_pending : forall a b i v,
  resumeHandleGenerate i (set_pending a b v) =
  set_pending a b (resumeHandleGenerate i v).
Proof.
  intros a b i v. unfold resumeHandleGenerate. cbn [invocations set_pending].
  destruct (nth_error (invocations v) i) as [inv|]; [|reflexivity].
  destruct (promise inv); reflexivity.
Qed.

Lemma step_BridgeResponse : forall w i reply,
  step w (BridgeResponse i reply) =
  match failure_of reply with
  | Some e =>
      try_settle i (Rejected e) (set_pending None None (responded_at i w))
  | None => responded_at i w
  end.
Proof.
  intros w i reply. rewrite step_drain. unfold handle, bridgeCallback.
  destruct reply as [e|[[|c m]|]]; simpl; try reflexivity; apply drain_settle.
Qed.

Lemma step_TimerFired : forall w i,
  step w (TimerFired i) =
  match pendingGenerateResolve w with
  | Some _ =>
      try_settle i
        (Rejected (Js.ErrorObj (Js.lit "Generation timed out after 2 minutes")))
        (set_pending None None (fired_at i w))
  | None => fired_at i w
  end.
Proof.
  intros w i. rewrite step_drain. unfold handle, timeoutCallback.
  cbn [pendingGenerateResolve set_invocations].
  destruct (pendingGenerateResolve w); [apply drain_settle | reflexivity].
Qed.

Lemma step_OnGenerate : forall w r,
  step w (OnGenerate r) =
  set_pending None None
    match (match outcome_of r with
           | Rejected _ => pendingGenerateReject w
           | _ => pendingGenerateResolve w
           end) with
    | Some p => try_settle p (outcome_of r) w
    | None => w
    end.
Proof.
  intros w r. rewrite step_drain.
  unfold handle, aiFlashcardsOnGenerate, outcome_of.
  destruct (result_error r) as [[|c m]|]; simpl.
  - destruct (pendingGenerateResolve w); [|reflexivity].
    apply drain_settle_with. apply resume_set_pending.
  - destruct (pendingGenerateReject w); [|reflexivity].
    apply drain_settle_with. apply resume_set_pending.
  - destruct (pendingGenerateResolve w); [|reflexivity].
    apply drain_settle_with. apply resume_set_pending.
Qed.

Lemma try_settle_slot : forall i o w,
  pendingGenerateResolve (try_settle i o w) = pendingGenerateResolve w /\
  pendingGenerateReject (try_settle i o w) = pendingGenerateReject w.
Proof.
  intros i o w. unfold try_settle, delivered.
  destruct (nth_error (promises w) i) as [[| |]|]; auto.
  destruct o; [auto | | auto].
  destruct (nth_error (submitted w) i) as [[t n]|]; auto.
Qed.

Lemma try_settle_cases : forall i o w,
  o <> Pending ->
  try_settle i o w = w \/ currentStep (try_settle i o w) <> generating.
Proof.
  intros i o w Ho. unfold try_settle, delivered, submitted, promises.
  rewrite !nth_error_map.
  destruct (nth_error (invocations w) i) as [inv|]; simpl; auto.
  destruct (promise inv); auto.
  destruct o; [congruence | |]; right; simpl; discriminate.
Qed.

Lemma marked_observations : forall (f : Invocation -> Invocation) i w,
  (forall x, promise (f x) = promise x) ->
  (forall x, arg_text (f x) = arg_text x) ->
  (forall x, arg_name (f x) = arg_name x) ->
  let w' := set_invocations (update_nth i f (invocations w)) w in
  promises w' = promises w /\ submitted w' = submitted w /\
  latest w' = latest w.
Proof.
  intros f i w H1 H2 H3. unfold promises, submitted, latest. cbn.
  rewrite length_update_nth, !map_update_nth_same; auto.
  intros x. rewrite H2, H3. reflexivity.
Qed.

Lemma slot_invariant_cleared : forall w,
  slot_invariant w -> slot_invariant (set_pending None None w).
Proof.
  intros w [H1 H2 H3 H4]. constructor; cbn; auto. discriminate.
Qed.

Lemma slot_invariant_try_settle : forall i o w,
  o <> Pending ->
  pendingGenerateResolve w = None -> pendingGenerateReject w = None ->
  slot_invariant w -> slot_invariant (try_settle i o w).
Proof.
  intros i o w Ho Hr Hj H.
  destruct (try_settle_cases i o w Ho) as [E|E]; [rewrite E; exact H|].
  destruct (try_settle_slot i o w) as [Sr Sj].
  constructor.
  - congruence.
  - intros p Hp. rewrite Sr, Hr in Hp. discriminate.
  - intros G. contradiction.
  - intros G. contradiction.
Qed.

Lemma slot_invariant_marked : forall (f : Invocation -> Invocation) i w,
  (forall x, promise (f x) = promise x) ->
  (forall x, arg_text (f x) = arg_text x) ->
  (forall x, arg_name (f x) = arg_name x) ->
  slot_invariant w ->
  slot_invariant (set_invocations (update_nth i f (invocations w)) w).
Proof.
  intros f i w F1 F2 F3 [H1 H2 H3 H4].
  destruct (marked_observations f i w F1 F2 F3) as (E1 & E2 & E3).
  constructor; rewrite ?E1, ?E2, ?E3;
    cbn [pendingGenerateResolve pendingGenerateReject currentStep sourceText
         sourceName set_invocations];
    auto.
Qed.

Lemma slot_invariant_step : forall w e,
  slot_invariant w -> slot_invariant (step w e).
Proof.
  intros w e H. destruct e.
  - (* Generate *)
    destruct H as [H1 H2 H3 H4].
    assert (L : latest (step w (Generate d)) = List.length (invocations w)).
    { unfold latest. cbn. rewrite length_app. simpl. lia. }
    constructor; rewrite ?L; unfold promises, submitted; cbn.
    + reflexivity.
    + intros p Hp. inversion Hp; subst. split; [reflexivity|].
      rewrite map_app. rewrite <- (length_map promise). apply nth_error_snoc.
    + intros _. rewrite map_app. rewrite <- (length_map promise) at 1.
      apply nth_error_snoc.
    + intros _. rewrite map_app.
      rewrite <- (length_map (fun inv => (arg_text inv, arg_name inv))) at 1.
      apply nth_error_snoc.
  - destruct H as [H1 H2 H3 H4]; constructor; auto.
  - destruct H as [H1 H2 H3 H4]; constructor; auto.
  - destruct H as [H1 H2 H3 H4]; constructor; auto.
  - destruct H as [H1 H2 H3 H4]; constructor; auto.
  - destruct H as [H1 H2 H3 H4]; constructor; auto.
  - destruct H as [H1 H2 H3 H4]; constructor; auto.
  - (* ImportApproved *)
    rewrite step_ImportApproved. unfold handleImport.
    destruct (Nat.eqb (approvedCount (cards w)) 0);
      destruct H as [H1 H2 H3 H4]; constructor; auto; cbn; discriminate.
  - (* NewSession *)
    destruct H as [H1 H2 H3 H4]; constructor; auto; cbn; discriminate.
  - (* BridgeResponse *)
    rewrite step_BridgeResponse.
    assert (H' : slot_invariant (responded_at i w)).
    { apply slot_invariant_marked; auto. }
    destruct (failure_of reply); [|exact H'].
    apply slot_invariant_try_settle; try reflexivity; [discriminate|].
    apply slot_invariant_cleared, H'.
  - (* OnGenerate *)
    rewrite step_OnGenerate.
    assert (Ho : outcome_of result <> Pending).
    { unfold outcome_of.
      destruct (result_error result) as [[|c m]|]; discriminate. }
    destruct (match outcome_of result with
              | Rejected _ => pendingGenerateReject w
              | _ => pendingGenerateResolve w
              end) as [p|];
      [|apply slot_invariant_cleared, H].
    destruct (try_settle_cases p (outcome_of result) w Ho) as [E|E];
      [rewrite E; apply slot_invariant_cleared, H|].
    constructor; cbn; auto; try discriminate; intros G; contradiction.
  - (* TimerFired *)
    rewrite step_TimerFired.
    assert (H' : slot_invariant (fired_at i w)).
    { apply slot_invariant_marked; auto. }
    destruct (pendingGenerateResolve w); [|exact H'].
    apply slot_invariant_try_settle; try reflexivity; [discriminate|].
    apply slot_invariant_cleared, H'.
  - (* Elapse *)
    destruct H as [H1 H2 H3 H4]; constructor; auto.
  - (* ImportReturned *)
    unfold step, handle, importReturned. cbn [fold_left].
    destruct (nth_error (calls w) k) as [c|]; [|exact H].
    destruct (request c); try exact H. destruct (awaiter c); try exact H.
    destruct r; destruct H as [H1 H2 H3 H4]; constructor; auto; cbn;
      discriminate.
  - (* SessionReturned *)
    unfold step, handle, sessionReturned. cbn [fold_left].
    destruct (nth_error (calls w) k) as [c|]; [|exact H].
    destruct (request c); try exact H; destruct (awaiter c); try exact H;
      destruct r; destruct H as [H1 H2 H3 H4]; constructor; auto; cbn;
      discriminate.
Qed.

(** ** The slot *)

Lemma slot_invariant_create : forall decks session,
  slot_invariant (create decks session).
Proof.
  intros decks session. constructor; cbn; try discriminate; auto.
  - destruct (hasSession session); discriminate.
  - destruct (hasSession session); discriminate.
Qed.

Lemma slot_invariant_run : forall es w w',
  slot_invariant w -> run w es = Some w' -> slot_invariant w'.
Proof.
  induction es as [|e es IH]; simpl; intros w w' H R.
  - inversion R; subst; exact H.
  - destruct (enabled w e); [|discriminate].
    apply (IH (step w e)); [apply slot_invariant_step, H | exact R].
Qed.

Lemma reachable_slot_invariant : forall w, reachable w -> slot_invariant w.
Proof.
  intros w (decks & session & es & R).
  apply (slot_invariant_run es (create decks session));
    [apply slot_invariant_create | exact R].
Qed.

Lemma set_pending_null : forall w,
  pendingGenerateResolve w = None -> pendingGenerateReject w = None ->
  set_pending None None w = w.
Proof. intros [] H1 H2; cbn in *; subst; reflexivity. Qed.

(** With the slot null, [_aiFlashcardsOnGenerate] changes nothing. *)
Lemma completion_noop : forall w result,
  pendingGenerateResolve w = None -> pendingGenerateReject w = None ->
  step w (OnGenerate result) = w.
Proof.
  intros w result H1 H2. rewrite step_OnGenerate, H1, H2.
  destruct (outcome_of result); apply set_pending_null; assumption.
Qed.

Lemma resolution_clears : forall w e,
  pendingGenerateResolve w = pendingGenerateReject w ->
  resolution e ->
  pendingGenerateResolve (step w e) = None /\
  pendingGenerateReject (step w e) = None.
Proof.
  intros w e P [i reply x F | result | i].
  - rewrite step_BridgeResponse, F.
    destruct (try_settle_slot i (Rejected x)
                (set_pending None None (responded_at i w))) as [-> ->].
    split; reflexivity.
  - rewrite step_OnGenerate. split; reflexivity.
  - rewrite step_TimerFired.
    destruct (pendingGenerateResolve w) eqn:E.
    + match goal with
      | |- context [try_settle i ?o ?v] =>
          destruct (try_settle_slot i o v) as [-> ->]
      end.
      split; reflexivity.
    + split; [exact E|]. cbn. symmetry. exact P.
Qed.

(** The page has one completion slot: its two variables are null
    together or hold the two functions of one promise, the pending promise
    of the invocation made last.  Whatever resolves a request (a failure
    in the answer to the bridge command, a completion callback, a timer)
    leaves the slot null, and a completion signal that finds the slot
    null changes nothing.  The next submission fills the slot again. *)
Lemma slot_null_after_resolution : forall w,
  reachable w ->
  (pendingGenerateResolve w = pendingGenerateReject w /\
   forall p, pendingGenerateResolve w = Some p ->
             p = latest w /\ nth_error (promises w) p = Some Pending) /\
  (forall e, resolution e ->
     pendingGenerateResolve (step w e) = None /\
     pendingGenerateReject (step w e) = None /\
     forall result, step (step w e) (OnGenerate result) = step w e) /\
  (pendingGenerateResolve w = None ->
   forall result, step w (OnGenerate result) = w).
Proof.
  intros w R. apply reachable_slot_invariant in R. destruct R as [H1 H2 _ _].
  split; [split; assumption|]. split.
  - intros e He. destruct (resolution_clears w e H1 He) as [C1 C2].
    repeat split; try assumption.
    intros result. apply completion_noop; assumption.
  - intros N result. apply completion_noop; congruence.
Qed.

(** ** The timeout *)

Lemma try_settle_rejects : forall i e w,
  nth_error (promises w) i = Some Pending ->
  try_settle i (Rejected e) w =
  set_step source
    (set_error (Some (Js.message_of e))
       (set_invocations
          (update_nth i (set_promise (Rejected e)) (invocations w)) w)).
Proof. intros i e w H. unfold try_settle. rewrite H. reflexivity. Qed.

Lemma try_settle_fulfils : forall i cs text name w,
  nth_error (promises w) i = Some Pending ->
  nth_error (submitted w) i = Some (text, name) ->
  try_settle i (Fulfilled cs) w =
  send (SaveSession name text cs) AwaitedByGenerate
    (set_step review
       (set_cards cs
          (set_invocations
             (update_nth i (set_promise (Fulfilled cs)) (invocations w)) w))).
Proof.
  intros i cs text name w H1 H2. unfold try_settle, delivered.
  rewrite H1, H2. reflexivity.
Qed.

(** When the timer of invocation [i] runs while the slot holds the
    functions of its pending promise, the promise is rejected with the
    timeout error, the slot is cleared, [handleGenerate] falls back to
    step [source], and a completion that comes later changes nothing. *)
Lemma timeout_with_slot_held : forall w i,
  pendingGenerateResolve w = Some i ->
  pendingGenerateReject w = Some i ->
  nth_error (promises w) i = Some Pending ->
  nth_error (promises (step w (TimerFired i))) i =
    Some (Rejected
            (Js.ErrorObj (Js.lit "Generation timed out after 2 minutes"))) /\
  pendingGenerateResolve (step w (TimerFired i)) = None /\
  pendingGenerateReject (step w (TimerFired i)) = None /\
  currentStep (step w (TimerFired i)) = source /\
  forall result,
    step (step w (TimerFired i)) (OnGenerate result) = step w (TimerFired i).
Proof.
  intros w i Hr Hj Hp. rewrite step_TimerFired, Hr.
  assert (Hp' : nth_error (promises (set_pending None None (fired_at i w))) i
                = Some Pending).
  { destruct (marked_observations mark_fired i w) as (E & _); auto.
    unfold promises in *. cbn in *. rewrite E. exact Hp. }
  rewrite (try_settle_rejects _ _ _ Hp').
  repeat split.
  - unfold promises. cbn.
    rewrite (map_update_nth _ _ promise _ (fun _ => Rejected
              (Js.ErrorObj (Js.lit "Generation timed out after 2 minutes"))))
      by reflexivity.
    rewrite nth_error_update_nth_eq.
    unfold promises in Hp'. cbn in Hp'. rewrite Hp'. reflexivity.
  - intros result. apply completion_noop; reflexivity.
Qed.

(** C1, on the run [stale_timer_run]: the second invocation is
    acknowledged and never resolved, yet when its 120 seconds are over its
    promise is still pending.  The timer of the first invocation, left
    armed when that invocation failed, has cleared the slot of the second,
    so the second timer finds the slot null and rejects nothing: no
    timeout failure is produced, no timer is left to produce one, a
    completion is no longer delivered, and the page stays in step
    [generating]. *)
Theorem stale_timer_starves_timeout_C1 :
  exists w inv,
    run (create [1%Z] no_session) stale_timer_run = Some w /\
    nth_error (invocations w) 1 = Some inv /\
    responded inv = true /\
    fired inv = true /\
    (deadline inv <= now w)%Z /\
    promise inv = Pending /\
    currentStep w = generating /\
    error w = None /\
    pendingGenerateResolve w = None /\
    (forall i, enabled w (TimerFired i) = false) /\
    (forall result, step w (OnGenerate result) = w).
Proof.
  eexists. eexists. split; [vm_compute; reflexivity|].
  split; [reflexivity|].
  repeat split; try discriminate.
  - intros [|[|[|i]]]; reflexivity.
  - intros result. apply completion_noop; reflexivity.
Qed.

(** ** The outcome of a generation *)

(** C5, as the code has it: when the completion callback delivers cards to
    the page waiting in step [generating], the cards become the page's
    cards exactly as delivered, each with the status it came with (all
    pending when they come with status 0); the step becomes [review]; and
    [saveSession] is sent last, awaited, with the page's [sourceName],
    [sourceText] and the new cards, which are the name and text
    submitted. *)
Theorem generation_success_C5 : forall w result cs,
  reachable w ->
  currentStep w = generating ->
  pendingGenerateResolve w <> None ->
  outcome_of result = Fulfilled cs ->
  cards (step w (OnGenerate result)) = cs /\
  Forall2 (fun c c' => status c' = status c) cs
          (cards (step w (OnGenerate result))) /\
  (Forall (fun c => status c = 0%Z) cs ->
   pendingCount (cards (step w (OnGenerate result))) = List.length cs) /\
  currentStep (step w (OnGenerate result)) = review /\
  calls (step w (OnGenerate result)) =
    calls w ++
    [{| request :=
          SaveSession (sourceName (step w (OnGenerate result)))
                      (sourceText (step w (OnGenerate result)))
                      (cards (step w (OnGenerate result)));
        awaiter := AwaitedByGenerate;
        answered := false |}] /\
  sourceName (step w (OnGenerate result)) = sourceName w /\
  sourceText (step w (OnGenerate result)) = sourceText w /\
  nth_error (submitted w) (latest w) = Some (sourceText w, sourceName w).
Proof.
  intros w result cs R G S O.
  destruct (reachable_slot_invariant w R) as [_ H2 H3 H4].
  destruct (pendingGenerateResolve w) as [p|] eqn:E; [|contradiction].
  destruct (H2 p eq_refl) as [-> _].
  rewrite step_OnGenerate, O, E.
  rewrite (try_settle_fulfils _ cs _ _ _ (H3 G) (H4 G)). cbn.
  repeat split; auto.
  - clear. induction cs; constructor; auto.
  - intros F. unfold pendingCount. f_equal.
    clear - F. induction F as [|c l Hc _ IH]; simpl; [reflexivity|].
    unfold has_status at 1. rewrite Hc. simpl. f_equal. exact IH.
Qed.

(** In step [generating], a failure that rejects the awaited promise (a
    failure in the answer to the bridge command, a failure delivered
    through the slot by the completion callback, the timer with the slot
    held) takes the page back to step [source] with the failure's message
    in the variable [error]; [sourceText] and [sourceName] are untouched
    and are still the text and name submitted, and the source form is
    rendered again with them as its initial values. *)
Lemma failure_returns_to_source : forall w e msg,
  reachable w ->
  currentStep w = generating ->
  generation_failure w e msg ->
  currentStep (step w e) = source /\
  error (step w e) = Some msg /\
  sourceText (step w e) = sourceText w /\
  sourceName (step w e) = sourceName w /\
  nth_error (submitted w) (latest w) =
    Some (sourceText (step w e), sourceName (step w e)) /\
  exists props,
    render (step w e) = SourceView props /\
    SourceSelector.textInput (SourceSelector.create props) = sourceText w /\
    SourceSelector.sourceName (SourceSelector.create props) = sourceName w.
Proof.
  intros w e msg R G F.
  destruct (reachable_slot_invariant w R) as [H1 H2 H3 H4].
  specialize (H3 G). specialize (H4 G).
  assert (K : forall x v,
             promises v = promises w ->
             currentStep (try_settle (latest w) (Rejected x) v) = source /\
             error (try_settle (latest w) (Rejected x) v)
               = Some (Js.message_of x) /\
             sourceText (try_settle (latest w) (Rejected x) v) = sourceText v /\
             sourceName (try_settle (latest w) (Rejected x) v) = sourceName v /\
             sourceUrl (try_settle (latest w) (Rejected x) v) = sourceUrl v).
  { intros x v Pv. rewrite try_settle_rejects by (rewrite Pv; exact H3).
    repeat split. }
  assert (Done : forall w',
             currentStep w' = source /\ error w' = Some msg /\
             sourceText w' = sourceText w /\ sourceName w' = sourceName w /\
             sourceUrl w' = sourceUrl w ->
             currentStep w' = source /\ error w' = Some msg /\
             sourceText w' = sourceText w /\ sourceName w' = sourceName w /\
             nth_error (submitted w) (latest w) =
               Some (sourceText w', sourceName w') /\
             exists props,
               render w' = SourceView props /\
               SourceSelector.textInput (SourceSelector.create props)
                 = sourceText w /\
               SourceSelector.sourceName (SourceSelector.create props)
                 = sourceName w).
  { intros w' (A & B & C & D & U). repeat split; auto.
    - rewrite C, D. exact H4.
    - unfold render. rewrite A, C, D. eexists. split; [reflexivity|].
      split; reflexivity. }
  apply Done. destruct F as [reply x Fx | result x Ox Sx | Sx].
  - rewrite step_BridgeResponse, Fx.
    apply (K x (set_pending None None (responded_at (latest w) w))).
    apply (marked_observations mark_responded (latest w) w); auto.
  - rewrite step_OnGenerate, Ox.
    destruct (pendingGenerateReject w) as [p|] eqn:E; [|contradiction].
    assert (E' : pendingGenerateResolve w = Some p) by congruence.
    destruct (H2 p E') as [-> _].
    destruct (K x w eq_refl) as (A & B & C & D & U).
    cbn. auto.
  - rewrite step_TimerFired.
    destruct (pendingGenerateResolve w) as [p|] eqn:E; [|contradiction].
    exact (K (Js.ErrorObj (Js.lit "Generation timed out after 2 minutes"))
             (set_pending None None (fired_at (latest w) w))
             (proj1 (marked_observations mark_fired (latest w) w
                       (fun _ => eq_refl) (fun _ => eq_refl)
                       (fun _ => eq_refl)))).
Qed.

Lemma promises_try_settle : forall i o w,
  promises (try_settle i o w) =
  match nth_error (promises w) i with
  | Some Pending => update_nth i (fun _ => o) (promises w)
  | _ => promises w
  end.
Proof.
  intros i o w. unfold try_settle.
  destruct (nth_error (promises w) i) as [[| |]|] eqn:E; try reflexivity.
  assert (P : promises
                (set_invocations
                   (update_nth i (set_promise o) (invocations w)) w)
              = update_nth i (fun _ => o) (promises w)).
  { unfold promises. cbn. apply map_update_nth. reflexivity. }
  unfold delivered.
  destruct o; [exact P | | exact P].
  destruct (nth_error (submitted w) i) as [[t n]|]; exact P.
Qed.

Lemma nth_error_update_const : forall (A : Type) (l : list A) i j x y,
  nth_error l j = Some y ->
  nth_error (update_nth i (fun _ => x) l) j =
    Some (if Nat.eqb i j then x else y).
Proof.
  intros A l i j x y H. destruct (Nat.eqb i j) eqn:E.
  - apply Nat.eqb_eq in E. subst. rewrite nth_error_update_nth_eq, H.
    reflexivity.
  - apply Nat.eqb_neq in E. rewrite nth_error_update_nth_neq; auto.
Qed.

(** In step [generating], an event that leaves the promise made last
    rejected is one of the three failures. *)
Lemma rejection_is_generation_failure : forall w e x,
  reachable w ->
  currentStep w = generating ->
  nth_error (promises (step w e)) (latest w) = Some (Rejected x) ->
  generation_failure w e (Js.message_of x).
Proof.
  intros w e x R G H.
  destruct (reachable_slot_invariant w R) as [H1 H2 H3 _].
  specialize (H3 G).
  assert (T : forall i o v,
            promises v = promises w ->
            nth_error (promises (try_settle i o v)) (latest w)
              = Some (Rejected x) ->
            i = latest w /\ o = Rejected x).
  { intros i o v Pv K. rewrite promises_try_settle, Pv in K.
    destruct (nth_error (promises w) i) as [[| |]|] eqn:E;
      try (rewrite H3 in K; discriminate).
    rewrite (nth_error_update_const _ _ i _ o _ H3) in K.
    destruct (Nat.eqb i (latest w)) eqn:Q; [|discriminate].
    apply Nat.eqb_eq in Q. inversion K. auto. }
  destruct e;
    try (exfalso; unfold promises in *; cbn in H; rewrite H3 in H;
         discriminate).
  - (* Generate *)
    exfalso. unfold promises in *. cbn in H. rewrite map_app in H.
    rewrite nth_error_app1 in H by (apply nth_error_Some; congruence).
    rewrite H3 in H. discriminate.
  - (* ImportApproved *)
    exfalso. rewrite step_ImportApproved in H. unfold handleImport in H.
    destruct (Nat.eqb (approvedCount (cards w)) 0);
      unfold promises in *; cbn in H; rewrite H3 in H; discriminate.
  - (* BridgeResponse *)
    rewrite step_BridgeResponse in H.
    assert (Pv : promises (set_pending None None (responded_at i w))
                 = promises w).
    { apply (marked_observations mark_responded i w); auto. }
    destruct (failure_of reply) as [x'|] eqn:F.
    + destruct (T _ _ _ Pv H) as [-> Ex]. inversion Ex; subst.
      apply immediate_error. exact F.
    + exfalso. change (promises (responded_at i w)) with
        (promises (set_pending None None (responded_at i w))) in H.
      rewrite Pv, H3 in H. discriminate.
  - (* OnGenerate *)
    rewrite step_OnGenerate in H.
    change (promises (set_pending None None ?v)) with (promises v) in H.
    destruct (outcome_of result) as [| cs | x'] eqn:O.
    + exfalso. unfold outcome_of in O.
      destruct (result_error result) as [[|c m]|]; discriminate.
    + exfalso. destruct (pendingGenerateResolve w) as [p|];
        [|rewrite H3 in H; discriminate].
      destruct (T _ _ _ eq_refl H) as [_ Ex]. discriminate.
    + destruct (pendingGenerateReject w) as [p|] eqn:E;
        [|exfalso; rewrite H3 in H; discriminate].
      destruct (T _ _ _ eq_refl H) as [_ Ex]. inversion Ex; subst.
      apply asynchronous_failure; [exact O | congruence].
  - (* TimerFired *)
    rewrite step_TimerFired in H.
    assert (Pv : promises (set_pending None None (fired_at i w))
                 = promises w).
    { apply (marked_observations mark_fired i w); auto. }
    destruct (pendingGenerateResolve w) as [p|] eqn:E.
    + destruct (T _ _ _ Pv H) as [-> Ex]. inversion Ex; subst.
      apply timed_out. congruence.
    + exfalso. change (promises (fired_at i w)) with
        (promises (set_pending None None (fired_at i w))) in H.
      rewrite Pv, H3 in H. discriminate.
  - (* ImportReturned *)
    exfalso. unfold step, handle, importReturned in H. cbn [fold_left] in H.
    destruct (nth_error (calls w) k) as [c|];
      [| rewrite H3 in H; discriminate].
    destruct (request c); try (rewrite H3 in H; discriminate).
    destruct (awaiter c); try (rewrite H3 in H; discriminate).
    destruct r; unfold promises in *; cbn in H; rewrite H3 in H; discriminate.
  - (* SessionReturned *)
    exfalso. unfold step, handle, sessionReturned in H. cbn [fold_left] in H.
    destruct (nth_error (calls w) k) as [c|];
      [| rewrite H3 in H; discriminate].
    destruct (request c); try (rewrite H3 in H; discriminate);
      destruct (awaiter c); try (rewrite H3 in H; discriminate);
      destruct r; unfold promises in *; cbn in H; rewrite H3 in H;
      discriminate.
Qed.

(** ** The outcome of an import *)

(** When [importApprovedCards] returns a result, the counts are kept and
    [clearSession] is sent, awaited, the cards untouched; when that
    [clearSession] succeeds the step becomes [done].  When
    [importApprovedCards] fails the step goes back to [review] with the
    failure's message in [error]; the cards, the name and the text are
    untouched and nothing is sent, no [clearSession] among it. *)
Lemma import_outcome_steps : forall w k c sent deck tags,
  currentStep w = importing ->
  nth_error (calls w) k = Some c ->
  request c = ImportApprovedCards sent deck tags ->
  awaiter c = AwaitedByImport ->
  (forall result,
     requests (step w (ImportReturned k (inl result))) =
       requests w ++ [ClearSession] /\
     nth_error (calls (step w (ImportReturned k (inl result))))
               (List.length (calls w)) =
       Some {| request := ClearSession; awaiter := AwaitedByImport;
               answered := false |} /\
     importResult (step w (ImportReturned k (inl result))) =
       Some (importedCount result, duplicateCount result) /\
     cards (step w (ImportReturned k (inl result))) = cards w /\
     currentStep
       (step (step w (ImportReturned k (inl result)))
             (SessionReturned (List.length (calls w)) None)) = done) /\
  (forall e,
     currentStep (step w (ImportReturned k (inr e))) = review /\
     error (step w (ImportReturned k (inr e))) = Some (Js.message_of e) /\
     cards (step w (ImportReturned k (inr e))) = cards w /\
     sourceName (step w (ImportReturned k (inr e))) = sourceName w /\
     sourceText (step w (ImportReturned k (inr e))) = sourceText w /\
     requests (step w (ImportReturned k (inr e))) = requests w /\
     ~ In ClearSession
          (skipn (List.length (calls w))
                 (requests (step w (ImportReturned k (inr e)))))).
Proof.
  intros w k c sent deck tags G Hk Hr Ha.
  assert (Q : forall l, map request (update_nth k mark_answered l)
                        = map request l).
  { intros l. apply map_update_nth_same. reflexivity. }
  split.
  - intros result.
    assert (E : step w (ImportReturned k (inl result)) =
                send ClearSession AwaitedByImport
                  (set_importResult
                     (Some (importedCount result, duplicateCount result))
                     (set_calls (update_nth k mark_answered (calls w)) w))).
    { unfold step, handle, importReturned. rewrite Hk, Hr, Ha. reflexivity. }
    rewrite E.
    assert (N : nth_error
                  (update_nth k mark_answered (calls w) ++
                     [{| request := ClearSession; awaiter := AwaitedByImport;
                         answered := false |}])
                  (List.length (calls w)) =
                Some {| request := ClearSession; awaiter := AwaitedByImport;
                        answered := false |}).
    { rewrite <- (length_update_nth _ mark_answered (calls w) k).
      apply nth_error_snoc. }
    unfold requests. cbn.
    repeat split.
    + rewrite map_app, Q. reflexivity.
    + exact N.
    + unfold step, handle, sessionReturned. cbn. rewrite N. reflexivity.
  - intros e.
    assert (E : step w (ImportReturned k (inr e)) =
                set_step review
                  (set_error (Some (Js.message_of e))
                     (set_calls (update_nth k mark_answered (calls w)) w))).
    { unfold step, handle, importReturned. rewrite Hk, Hr, Ha. reflexivity. }
    rewrite E. unfold requests. cbn. rewrite Q.
    repeat split.
    rewrite <- (length_map request), skipn_all. intros [].
Qed.

(** ** The statements at sample inputs *)

Lemma submit_C3_witness :
  currentStep (create [1%Z] no_session) = source /\
  Js.trim (SourceSelector.textInput typed) <> [] /\
  currentStep (snd (submit typed (create [1%Z] no_session))) = generating.
Proof.
  assert (S : currentStep (create [1%Z] no_session) = source) by reflexivity.
  assert (T : Js.trim (SourceSelector.textInput typed) <> [])
    by (vm_compute; discriminate).
  split; [exact S|]. split; [exact T|].
  exact (proj1 (proj2 (proj1 (submit_C3 typed (create [1%Z] no_session) S) T))).
Defined.

Lemma import_guard_C4_witness :
  currentStep restored = review /\
  approvedCount (cards restored) <> 0 /\
  currentStep (step restored ImportApproved) = importing.
Proof.
  assert (S : currentStep restored = review) by reflexivity.
  assert (A : approvedCount (cards restored) <> 0)
    by (vm_compute; discriminate).
  split; [exact S|]. split; [exact A|].
  exact (proj1 (proj2 (import_guard_C4 restored S) A)).
Defined.

Lemma import_sends_approved_C9_witness :
  approvedCount (cards restored) <> 0 /\
  exists sent,
    calls (step restored ImportApproved) =
      calls restored ++ [import_call restored sent] /\
    sent = filter (has_status 1) (cards restored) /\
    (forall c, In c sent <-> In c (cards restored) /\ status c = 1%Z) /\
    (forall c, In c (cards restored) -> status c <> 1%Z -> ~ In c sent).
Proof.
  assert (A : approvedCount (cards restored) <> 0)
    by (vm_compute; discriminate).
  split; [exact A|].
  exact (import_sends_approved_C9 restored A).
Defined.

Lemma card_update_C10_witness :
  (forall c, In c (cards restored) -> id c <> Js.lit "c9") /\
  cards (handleCardUpdate (Js.lit "c9") 1 restored) = cards restored.
Proof.
  assert (H : forall c, In c (cards restored) -> id c <> Js.lit "c9").
  { intros c [<-|[<-|[]]]; vm_compute; discriminate. }
  split; [exact H|].
  exact (proj2 (proj2 (card_update_C10 restored (Js.lit "c9") 1)) H).
Defined.

Lemma reachable_after : forall es,
  run (create [1%Z] no_session) es <> None -> reachable (after es).
Proof.
  intros es H. exists [1%Z], no_session, es. unfold after.
  destruct (run (create [1%Z] no_session) es); [reflexivity | contradiction].
Qed.

Lemma reachable_waiting : reachable waiting.
Proof. apply reachable_after. vm_compute. discriminate. Qed.

Lemma reachable_overdue : reachable overdue.
Proof. apply reachable_after. vm_compute. discriminate. Qed.

(** C5 as stated fails: a card delivered with status 1 is in the page's
    cards with status 1 after the transition to [review]; nothing sets it
    to 0. *)
Lemma generation_success_C5_counterexample :
  currentStep waiting = generating /\
  currentStep (step waiting (OnGenerate (completed [capital 1]))) = review /\
  cards (step waiting (OnGenerate (completed [capital 1]))) = [capital 1] /\
  ~ Forall (fun c => status c = 0%Z)
           (cards (step waiting (OnGenerate (completed [capital 1])))).
Proof.
  repeat split. intros H. inversion H as [|c l Hc Hl]; subst. discriminate Hc.
Qed.

Lemma generation_success_C5_witness :
  reachable waiting /\
  currentStep waiting = generating /\
  pendingGenerateResolve waiting <> None /\
  outcome_of (completed [capital 0]) = Fulfilled [capital 0] /\
  cards (step waiting (OnGenerate (completed [capital 0]))) = [capital 0] /\
  currentStep (step waiting (OnGenerate (completed [capital 0]))) = review.
Proof.
  assert (G : currentStep waiting = generating) by reflexivity.
  assert (S : pendingGenerateResolve waiting <> None)
    by (vm_compute; discriminate).
  assert (O : outcome_of (completed [capital 0]) = Fulfilled [capital 0])
    by reflexivity.
  pose proof (generation_success_C5 waiting (completed [capital 0])
                [capital 0] reachable_waiting G S O) as T.
  split; [exact reachable_waiting|]. split; [exact G|]. split; [exact S|].
  split; [exact O|]. split; [exact (proj1 T)|].
  exact (proj1 (proj2 (proj2 (proj2 T)))).
Defined.

(** * Further properties *)

(** ** [trim], [startsWith], [endsWith] *)

Lemma trimStart_idempotent : forall s,
  Js.trimStart (Js.trimStart s) = Js.trimStart s.
Proof.
  intros s. destruct (Js.trimStart s) as [|c t] eqn:E; [reflexivity|].
  simpl. rewrite (trimStart_head s c t E). reflexivity.
Qed.

Lemma trimStart_snoc : forall l c,
  Js.is_white_space c = false ->
  Js.trimStart (l ++ [c]) = Js.trimStart l ++ [c].
Proof.
  intros l c H. induction l as [|x l IH]; simpl.
  - rewrite H. reflexivity.
  - destruct (Js.is_white_space x); [exact IH | reflexivity].
Qed.

Lemma trimEnd_cons : forall c t,
  Js.is_white_space c = false ->
  Js.trimEnd (c :: t) = c :: Js.trimEnd t.
Proof.
  intros c t H. unfold Js.trimEnd. simpl.
  rewrite trimStart_snoc by exact H. rewrite rev_app_distr. reflexivity.
Qed.

Lemma trimEnd_idempotent : forall s, Js.trimEnd (Js.trimEnd s) = Js.trimEnd s.
Proof.
  intros s. unfold Js.trimEnd. rewrite rev_involutive, trimStart_idempotent.
  reflexivity.
Qed.

(** A trimmed string is its own trim, and begins with no white space. *)
Lemma trim_idempotent : forall s, Js.trim (Js.trim s) = Js.trim s.
Proof.
  intros s. unfold Js.trim.
  destruct (Js.trimStart s) as [|c t] eqn:E; [reflexivity|].
  pose proof (trimStart_head s c t E) as H.
  rewrite (trimEnd_cons c t H). simpl. rewrite H.
  rewrite (trimEnd_cons c _ H), trimEnd_idempotent. reflexivity.
Qed.

Lemma startsWith_iff : forall prefix s,
  Js.startsWith s prefix = true <-> exists rest, s = prefix ++ rest.
Proof.
  induction prefix as [|p prefix IH]; intros s; simpl.
  - destruct s; split; eauto.
  - destruct s as [|c s]; simpl;
      [split; [discriminate | intros [r H]; discriminate]|].
    rewrite andb_true_iff, N.eqb_eq, IH. split.
    + intros [-> [r ->]]. exists r. reflexivity.
    + intros [r H]. inversion H; subst. eauto.
Qed.

Lemma endsWith_iff : forall suffix s,
  Js.endsWith s suffix = true <-> exists stem, s = stem ++ suffix.
Proof.
  intros suffix s. unfold Js.endsWith. rewrite startsWith_iff. split.
  - intros [r H]. exists (rev r).
    rewrite <- (rev_involutive s), H, rev_app_distr, rev_involutive.
    reflexivity.
  - intros [stem ->]. exists (rev stem). apply rev_app_distr.
Qed.

(** ** The source form: fetching a URL *)

(** X1: a click on Fetch with a blank URL does nothing at all; otherwise
    the form shows the loading state with its error cleared, its inputs
    untouched, and the URL that goes out is the trimmed input: not empty
    and with no white space around it. *)
Theorem url_fetch_request_X1 : forall s,
  (forallb Js.is_white_space (SourceSelector.urlInput s) = true ->
   SourceSelector.handleUrlFetch s = (s, None)) /\
  (Js.trim (SourceSelector.urlInput s) <> [] ->
   exists s1 url,
     SourceSelector.handleUrlFetch s = (s1, Some url) /\
     url = Js.trim (SourceSelector.urlInput s) /\
     url <> [] /\ Js.trim url = url /\
     SourceSelector.isLoading s1 = true /\
     SourceSelector.error s1 = None /\
     SourceSelector.textInput s1 = SourceSelector.textInput s /\
     SourceSelector.sourceName s1 = SourceSelector.sourceName s /\
     SourceSelector.urlInput s1 = SourceSelector.urlInput s /\
     SourceSelector.sourceType s1 = SourceSelector.sourceType s).
Proof.
  intros s. unfold SourceSelector.handleUrlFetch. split.
  - intros H. apply trim_nil_iff in H. rewrite H. reflexivity.
  - intros H. destruct (Js.trim (SourceSelector.urlInput s)) eqn:E;
      [contradiction|].
    eexists. eexists. split; [reflexivity|]. simpl. rewrite E.
    repeat split; try discriminate.
    rewrite <- E. apply trim_idempotent.
Qed.

(** X2: when the answer to [fetch_url] carries no error, the text becomes
    the fetched text (empty when the answer has none), the form switches
    to the text tab and stops loading, and the source name becomes the
    name in the answer or, when that is missing or empty, the URL that
    was sent; as that URL is not empty the name is never empty, and the
    further fallback to the URL input is never taken, whatever the input
    holds by then. *)
Theorem url_fetch_success_X2 : forall url reply result s,
  url <> [] ->
  SourceSelector.fetchUrlViaBackend url reply = inl result ->
  exists err text name,
    reply = SourceSelector.FetchObject err text name /\
    Js.truthy err = false /\
    SourceSelector.fetched_text result
      = match text with Some t => t | None => [] end /\
    SourceSelector.fetched_sourceName result
      = match name with
        | Some (c :: n) => c :: n
        | _ => url
        end /\
    SourceSelector.fetched_sourceName result <> [] /\
    SourceSelector.textInput
      (SourceSelector.resumeHandleUrlFetch (inl result) s)
      = SourceSelector.fetched_text result /\
    SourceSelector.sourceName
      (SourceSelector.resumeHandleUrlFetch (inl result) s)
      = SourceSelector.fetched_sourceName result /\
    SourceSelector.sourceType
      (SourceSelector.resumeHandleUrlFetch (inl result) s)
      = SourceSelector.TabText /\
    SourceSelector.isLoading
      (SourceSelector.resumeHandleUrlFetch (inl result) s) = false /\
    SourceSelector.error
      (SourceSelector.resumeHandleUrlFetch (inl result) s)
      = SourceSelector.error s /\
    SourceSelector.urlInput
      (SourceSelector.resumeHandleUrlFetch (inl result) s)
      = SourceSelector.urlInput s.
Proof.
  intros url reply result s Hu H.
  destruct reply as [e|err text name]; [discriminate|].
  unfold SourceSelector.fetchUrlViaBackend in H.
  destruct (Js.truthy err) eqn:T; [discriminate|].
  inversion H; subst; clear H. exists err, text, name. cbn.
  assert (N : Js.or_else (match name with Some n => n | None => [] end) url
              = match name with Some (c :: n) => c :: n | _ => url end).
  { destruct name as [[|c n]|]; reflexivity. }
  assert (NE : Js.or_else (match name with Some n => n | None => [] end) url
               <> []).
  { rewrite N. destruct name as [[|c n]|]; try assumption. discriminate. }
  repeat split; auto.
  - destruct text as [[|c t]|]; reflexivity.
  - destruct (Js.or_else (match name with Some n => n | None => [] end) url);
      [contradiction | reflexivity].
Qed.

(** X3: the fetch fails exactly when the answer cannot be read or carries
    a non-empty error; the form then shows that message and stops
    loading, and its text, source name, tab and URL are as before. *)
Theorem url_fetch_failure_X3 : forall url reply e s,
  SourceSelector.fetchUrlViaBackend url reply = inr e ->
  (reply = SourceSelector.FetchThrows e \/
   exists c m text name,
     reply = SourceSelector.FetchObject (Some (c :: m)) text name /\
     e = Js.ErrorObj (c :: m)) /\
  SourceSelector.error (SourceSelector.resumeHandleUrlFetch (inr e) s)
    = Some (Js.message_of e) /\
  SourceSelector.isLoading (SourceSelector.resumeHandleUrlFetch (inr e) s)
    = false /\
  SourceSelector.textInput (SourceSelector.resumeHandleUrlFetch (inr e) s)
    = SourceSelector.textInput s /\
  SourceSelector.sourceName (SourceSelector.resumeHandleUrlFetch (inr e) s)
    = SourceSelector.sourceName s /\
  SourceSelector.sourceType (SourceSelector.resumeHandleUrlFetch (inr e) s)
    = SourceSelector.sourceType s /\
  SourceSelector.urlInput (SourceSelector.resumeHandleUrlFetch (inr e) s)
    = SourceSelector.urlInput s.
Proof.
  intros url reply e s H. split; [|repeat split].
  destruct reply as [x|[[|c m]|] text name]; cbn in H;
    try discriminate; inversion H; subst.
  - left. reflexivity.
  - right. exists c, m, text, name. split; reflexivity.
Qed.

(** X4: a successful fetch followed by a click on Generate: a fetched
    text that is not blank is dispatched together with the fetched name
    (never the default name) and the URL typed; a fetched text that is
    blank or missing is refused with the form's error message. *)
Theorem fetch_then_generate_X4 : forall s err text name,
  Js.trim (SourceSelector.urlInput s) <> [] ->
  Js.truthy err = false ->
  (forall t,
     text = Some t -> Js.trim t <> [] ->
     snd (SourceSelector.handleGenerate
            (fetch_url s (SourceSelector.FetchObject err text name)))
     = Some {| SourceSelector.text := t;
               SourceSelector.name :=
                 match name with
                 | Some (c :: n) => c :: n
                 | _ => Js.trim (SourceSelector.urlInput s)
                 end;
               SourceSelector.url := SourceSelector.urlInput s |}) /\
  (forallb Js.is_white_space (match text with Some t => t | None => [] end)
   = true ->
   snd (SourceSelector.handleGenerate
          (fetch_url s (SourceSelector.FetchObject err text name))) = None /\
   SourceSelector.error
     (fst (SourceSelector.handleGenerate
             (fetch_url s (SourceSelector.FetchObject err text name))))
   = Some (Js.lit "Please provide text to generate flashcards from.")).
Proof.
  intros s err text name Hu He.
  assert (NE : Js.is_empty (Js.trim (SourceSelector.urlInput s)) = false).
  { destruct (Js.trim (SourceSelector.urlInput s));
      [contradiction | reflexivity]. }
  unfold fetch_url, SourceSelector.handleUrlFetch. rewrite NE.
  unfold SourceSelector.fetchUrlViaBackend. rewrite He.
  unfold SourceSelector.handleGenerate, SourceSelector.resumeHandleUrlFetch.
  cbn [SourceSelector.textInput SourceSelector.sourceName
       SourceSelector.urlInput SourceSelector.error
       SourceSelector.set_textInput SourceSelector.set_sourceName
       SourceSelector.set_sourceType SourceSelector.set_isLoading
       SourceSelector.set_error SourceSelector.fetched_text
       SourceSelector.fetched_sourceName fst snd].
  split.
  - intros t -> Ht.
    assert (T : Js.or_else t [] = t) by (destruct t; reflexivity).
    rewrite T. destruct (Js.trim t) eqn:Et; [contradiction|].
    cbn [Js.is_empty snd]. f_equal. f_equal.
    destruct (Js.trim (SourceSelector.urlInput s)) as [|u0 u];
      [contradiction|].
    destruct name as [[|c0 n0]|]; reflexivity.
  - intros H. apply trim_nil_iff in H.
    destruct text as [t|]; cbn [Js.or_else Js.is_empty].
    + assert (T : Js.or_else t [] = t) by (destruct t; reflexivity).
      rewrite T, H. split; reflexivity.
    + split; reflexivity.
Qed.

(** ** The source form: files *)

(** X5: a file that [processFile] does not read still replaces the source
    name: the form shows the "not yet supported" message, stops loading
    and keeps its text, and a click on Generate then dispatches that
    earlier text under the name of the refused file. *)
Theorem unsupported_file_X5 : forall file s,
  SourceSelector.is_text_file file = false ->
  snd (SourceSelector.processFile file s) = false /\
  SourceSelector.sourceName (fst (SourceSelector.processFile file s))
    = SourceSelector.file_name file /\
  SourceSelector.textInput (fst (SourceSelector.processFile file s))
    = SourceSelector.textInput s /\
  SourceSelector.sourceType (fst (SourceSelector.processFile file s))
    = SourceSelector.sourceType s /\
  SourceSelector.isLoading (fst (SourceSelector.processFile file s)) = false /\
  SourceSelector.error (fst (SourceSelector.processFile file s))
    = Some (Js.lit
        "This file type is not yet supported. Please use TXT or MD files.") /\
  (Js.trim (SourceSelector.textInput s) <> [] ->
   snd (SourceSelector.handleGenerate
          (fst (SourceSelector.processFile file s)))
   = Some {| SourceSelector.text := SourceSelector.textInput s;
             SourceSelector.name :=
               Js.or_else (SourceSelector.file_name file)
                          (Js.lit "Untitled");
             SourceSelector.url := SourceSelector.urlInput s |}).
Proof.
  intros file s H. unfold SourceSelector.processFile. rewrite H.
  repeat split.
  intros T. unfold SourceSelector.handleGenerate.
  cbn [fst SourceSelector.textInput SourceSelector.set_isLoading
       SourceSelector.set_error SourceSelector.set_sourceName].
  destruct (Js.trim (SourceSelector.textInput s)); [contradiction|].
  reflexivity.
Qed.

(** X6: a file is read exactly when its type begins with "text/" or its
    name ends in ".txt" or ".md".  Of the files dropped only the first
    counts.  When it is read, its content becomes the text, its name the
    source name, the form is on the text tab, not loading, not dragging
    and without error, and a content that is not blank is what Generate
    dispatches; when reading fails the text is kept, the error shown, and
    the source name is the file's all the same. *)
Theorem dropped_text_file_X6 : forall file rest s,
  (SourceSelector.is_text_file file = true <->
   (exists r, SourceSelector.file_type file = Js.lit "text/" ++ r) \/
   (exists stem, SourceSelector.file_name file = stem ++ Js.lit ".txt") \/
   (exists stem, SourceSelector.file_name file = stem ++ Js.lit ".md")) /\
  (SourceSelector.is_text_file file = true ->
   (forall content,
      drop_files (file :: rest) (inl content) s =
        {| SourceSelector.sourceType := SourceSelector.TabText;
           SourceSelector.textInput := content;
           SourceSelector.urlInput := SourceSelector.urlInput s;
           SourceSelector.sourceName := SourceSelector.file_name file;
           SourceSelector.dragging := false;
           SourceSelector.isLoading := false;
           SourceSelector.error := None |} /\
      (Js.trim content <> [] ->
       snd (SourceSelector.handleGenerate
              (drop_files (file :: rest) (inl content) s))
       = Some {| SourceSelector.text := content;
                 SourceSelector.name :=
                   Js.or_else (SourceSelector.file_name file)
                              (Js.lit "Untitled");
                 SourceSelector.url := SourceSelector.urlInput s |})) /\
   (forall e,
      drop_files (file :: rest) (inr e) s =
        {| SourceSelector.sourceType := SourceSelector.sourceType s;
           SourceSelector.textInput := SourceSelector.textInput s;
           SourceSelector.urlInput := SourceSelector.urlInput s;
           SourceSelector.sourceName := SourceSelector.file_name file;
           SourceSelector.dragging := false;
           SourceSelector.isLoading := false;
           SourceSelector.error := Some (Js.message_of e) |})).
Proof.
  intros file rest s. split.
  - unfold SourceSelector.is_text_file.
    rewrite !orb_true_iff, startsWith_iff, !endsWith_iff. tauto.
  - intros H. unfold drop_files, SourceSelector.handleDrop,
      SourceSelector.processFile. rewrite H. split.
    + intros content. split; [reflexivity|].
      intros T. unfold SourceSelector.handleGenerate,
        SourceSelector.resumeProcessFile.
      cbn [SourceSelector.textInput SourceSelector.set_isLoading
           SourceSelector.set_sourceType SourceSelector.set_textInput].
      destruct (Js.trim content); [contradiction | reflexivity].
    + intros e. reflexivity.
Qed.

(** ** The route *)

Lemma copy_card_id : forall c, Route.copy_card c = c.
Proof.
  intros [i ty f b tags st]. unfold Route.copy_card. cbn.
  rewrite map_id. reflexivity.
Qed.

Lemma map_copy_card : forall cs, map Route.copy_card cs = cs.
Proof.
  intros cs. rewrite <- (map_id cs) at 2. apply map_ext. apply copy_card_id.
Qed.

(** X7: when [loadSession] has failed or answers that there is no session,
    the page starts in step [source] with no cards, whatever cards the
    answer carries, no error and no button for a new session; the import
    is not available; the source form starts from the text and the name
    of the answer, empty when [loadSession] failed. *)
Theorem setup_without_session_X7 : forall decks response,
  match response with
  | Some r => hasSession r = false
  | None => True
  end ->
  currentStep (Route.setupAIFlashcardsPage decks response) = source /\
  cards (Route.setupAIFlashcardsPage decks response) = [] /\
  error (Route.setupAIFlashcardsPage decks response) = None /\
  showNewButton (Route.setupAIFlashcardsPage decks response) = false /\
  enabled (Route.setupAIFlashcardsPage decks response) ImportApproved
    = false /\
  calls (step (Route.setupAIFlashcardsPage decks response) ImportApproved)
    = calls (Route.setupAIFlashcardsPage decks response) /\
  render (Route.setupAIFlashcardsPage decks response) =
    SourceView
      {| SourceSelector.initialText :=
           match response with Some r => session_sourceText r | None => [] end;
         SourceSelector.initialSourceName :=
           match response with Some r => session_sourceName r | None => [] end;
         SourceSelector.initialUrl := [] |}.
Proof.
  intros decks [r|] H; unfold Route.setupAIFlashcardsPage, render; cbn.
  - rewrite H. cbn.
    assert (E : forall x, Js.or_else x [] = x) by (intros [|? ?]; reflexivity).
    rewrite !E. repeat split.
  - repeat split.
Qed.

(** X8: when [loadSession] answers with a session, the page starts in step
    [review] with exactly the cards, the name and the text of the answer
    (the loader's copy loses nothing), no request pending, the counts
    taken from those cards, and the import available exactly when one of
    the cards is approved. *)
Theorem setup_resumes_session_X8 : forall decks r,
  hasSession r = true ->
  currentStep (Route.setupAIFlashcardsPage decks (Some r)) = review /\
  cards (Route.setupAIFlashcardsPage decks (Some r)) = session_cards r /\
  sourceName (Route.setupAIFlashcardsPage decks (Some r))
    = session_sourceName r /\
  sourceText (Route.setupAIFlashcardsPage decks (Some r))
    = session_sourceText r /\
  pendingGenerateResolve (Route.setupAIFlashcardsPage decks (Some r))
    = None /\
  render (Route.setupAIFlashcardsPage decks (Some r)) =
    ReviewView (pendingCount (session_cards r))
               (approvedCount (session_cards r))
               (rejectedCount (session_cards r))
               None (session_cards r)
               (Nat.eqb (approvedCount (session_cards r)) 0) /\
  (enabled (Route.setupAIFlashcardsPage decks (Some r)) ImportApproved = true
   <-> exists c, In c (session_cards r) /\ status c = 1%Z).
Proof.
  intros decks r H. unfold Route.setupAIFlashcardsPage, render. cbn.
  rewrite H, map_copy_card. cbn.
  assert (E : forall x, Js.or_else x [] = x) by (intros [|? ?]; reflexivity).
  rewrite !E. repeat split.
  - intros N. apply negb_true_iff, Nat.eqb_neq in N.
    unfold approvedCount in N.
    destruct (filter (has_status 1) (session_cards r)) as [|c l] eqn:F;
      [contradiction|].
    exists c. assert (I : In c (filter (has_status 1) (session_cards r)))
      by (rewrite F; left; reflexivity).
    apply filter_In in I. destruct I as [I S]. split; [exact I|].
    apply Z.eqb_eq. exact S.
  - intros (c & I & S). apply negb_true_iff, Nat.eqb_neq.
    unfold approvedCount.
    assert (F : In c (filter (has_status 1) (session_cards r))).
    { apply filter_In. split; [exact I|]. apply Z.eqb_eq. exact S. }
    destruct (filter (has_status 1) (session_cards r));
      [contradiction | discriminate].
Qed.

(** ** The review *)

(** X9: the three counts never exceed the number of cards together, and
    they add up to it exactly when every card has one of the statuses 0,
    1, 2; a card with another status is counted nowhere. *)
Theorem counts_partition_X9 : forall cs,
  pendingCount cs + approvedCount cs + rejectedCount cs <= List.length cs /\
  (pendingCount cs + approvedCount cs + rejectedCount cs = List.length cs
   <-> Forall known_status cs).
Proof.
  unfold pendingCount, approvedCount, rejectedCount, has_status, known_status.
  induction cs as [|c cs [IH1 IH2]]; simpl.
  - split; [lia|]. split; [constructor | reflexivity].
  - rewrite Forall_cons_iff, <- IH2.
    destruct (Z.eqb_spec (status c) 0) as [E0|E0];
      destruct (Z.eqb_spec (status c) 1) as [E1|E1];
      destruct (Z.eqb_spec (status c) 2) as [E2|E2];
      try (exfalso; lia); simpl; (split; [lia|]);
      (split; [intros H; split; [try tauto; exfalso; lia | lia]
              | intros [[K|[K|K]] H]; lia]).
Qed.

Lemma filter_map_with_status : forall n m cs,
  filter (has_status n) (map (with_status m) cs)
  = if Z.eqb m n then map (with_status m) cs else [].
Proof.
  intros n m cs. induction cs as [|c cs IH]; simpl.
  - destruct (Z.eqb m n); reflexivity.
  - unfold has_status at 1. simpl. rewrite IH.
    destruct (Z.eqb m n); reflexivity.
Qed.

(** X10: after "approve all" every card counts as approved, and a commit
    sends the whole collection, each card with status 1, provided there is
    a card at all; after "reject all" no card counts as approved and a
    commit is refused: the error is set, the step is unchanged and no
    import request goes out.  With no cards "approve all" changes nothing
    of that: the commit is refused. *)
Theorem bulk_then_import_X10 : forall w,
  approvedCount (cards (step w ApproveAll)) = List.length (cards w) /\
  approvedCount (cards (step w RejectAll)) = 0 /\
  rejectedCount (cards (step w RejectAll)) = List.length (cards w) /\
  (cards w <> [] ->
   currentStep (step (step w ApproveAll) ImportApproved) = importing /\
   calls (step (step w ApproveAll) ImportApproved) =
     calls (step w ApproveAll)
     ++ [import_call w (map (with_status 1) (cards w))]) /\
  (cards w = [] ->
   step (step w ApproveAll) ImportApproved =
     set_error (Some (Js.lit "No cards have been approved yet."))
               (step w ApproveAll)) /\
  step (step w RejectAll) ImportApproved =
    set_error (Some (Js.lit "No cards have been approved yet."))
              (step w RejectAll).
Proof.
  intros w. rewrite !step_ImportApproved. unfold handleImport, approvedCount,
    rejectedCount. cbn [step handle fold_left approveAll rejectAll cards
                        set_cards send set_calls].
  rewrite !filter_map_with_status. cbn [Z.eqb Pos.eqb].
  rewrite !length_map. repeat split.
  - destruct (cards w); [contradiction|]. reflexivity.
  - destruct (cards w) as [|c l] eqn:E; [contradiction|].
    cbn. rewrite E. cbn. rewrite filter_map_with_status. reflexivity.
  - intros K. rewrite K. reflexivity.
Qed.

(** X11: single-card updates by id: the update made last wins; updates of
    two different ids can be made in either order; "approve all" and
    "reject all" override whatever updates came before; and after an
    update every card with that id has the status given. *)
Theorem card_update_algebra_X11 : forall w i j a b,
  cards (handleCardUpdate i b (handleCardUpdate i a w))
    = cards (handleCardUpdate i b w) /\
  (i <> j ->
   cards (handleCardUpdate i a (handleCardUpdate j b w))
     = cards (handleCardUpdate j b (handleCardUpdate i a w))) /\
  cards (approveAll (handleCardUpdate i a w)) = cards (approveAll w) /\
  cards (rejectAll (handleCardUpdate i a w)) = cards (rejectAll w) /\
  Forall (fun c => id c = i -> status c = a)
         (cards (handleCardUpdate i a w)).
Proof.
  intros w i j a b. cbn. rewrite !map_map. repeat split.
  - apply map_ext. intros c. destruct (Js.eqb (id c) i) eqn:E; cbn; rewrite E;
      reflexivity.
  - intros N. apply map_ext. intros c.
    destruct (Js.eqb (id c) i) eqn:Ei; destruct (Js.eqb (id c) j) eqn:Ej;
      cbn; rewrite ?Ei, ?Ej; try reflexivity.
    apply js_eqb_eq in Ei, Ej. congruence.
  - apply map_ext. intros c. destruct (Js.eqb (id c) i); reflexivity.
  - apply map_ext. intros c. destruct (Js.eqb (id c) i); reflexivity.
  - apply Forall_forall. intros c' H. apply in_map_iff in H.
    destruct H as (c & <- & _). destruct (Js.eqb (id c) i) eqn:E; cbn.
    + reflexivity.
    + intros K. apply js_eqb_neq in E. contradiction.
Qed.

Lemma Forall2_same_content_refl : forall cs, Forall2 same_content cs cs.
Proof. induction cs; constructor; auto. repeat split. Qed.

Lemma Forall2_same_content_trans : forall a b c,
  Forall2 same_content a b -> Forall2 same_content b c ->
  Forall2 same_content a c.
Proof.
  intros a b c H. revert c. induction H as [|x y a b Hxy _ IH]; intros c K;
    inversion K; subst; constructor; auto.
  unfold same_content in *. intuition congruence.
Qed.

Lemma review_op_step : forall w e,
  is_review_op e = true ->
  step w e = send (SaveSession (sourceName w) (sourceText w)
                               (cards (step w e)))
                  Detached (set_cards (cards (step w e)) w) /\
  Forall2 same_content (cards w) (cards (step w e)).
Proof.
  intros w e H.
  destruct e; try discriminate; (split; [reflexivity|]); cbn;
    apply Forall2_map_r; intros c _;
    try (destruct (Js.eqb (id c) cardId)); repeat split.
Qed.

(** X12: whatever series of review actions is made (approve, reject or
    reset a card, approve all, reject all), the step, the source name and
    text and the error are untouched, the cards keep their number, order
    and content but for the status, one detached [saveSession] goes out per
    action, each with the page's name and text, nothing else is sent, and
    the one sent last carries the cards exactly as the page then holds
    them. *)
Theorem review_autosave_X12 : forall ops w,
  forallb is_review_op ops = true ->
  currentStep (play w ops) = currentStep w /\
  sourceName (play w ops) = sourceName w /\
  sourceText (play w ops) = sourceText w /\
  error (play w ops) = error w /\
  Forall2 same_content (cards w) (cards (play w ops)) /\
  exists saves,
    calls (play w ops) = calls w ++ saves /\
    List.length saves = List.length ops /\
    Forall (fun c => exists cs, c = autosave w cs) saves /\
    (ops <> [] ->
     exists earlier,
       saves = earlier ++ [autosave w (cards (play w ops))]).
Proof.
  induction ops as [|e ops IH]; intros w H.
  - cbn. repeat split; try apply Forall2_same_content_refl.
    exists []. rewrite app_nil_r. repeat split; auto. intros N. contradiction.
  - cbn in H. apply andb_true_iff in H. destruct H as [He Hops].
    destruct (review_op_step w e He) as [E F].
    destruct (IH (step w e) Hops) as (I1 & I2 & I3 & I4 & I5 & saves & S1 & S2
                                      & S3 & S4).
    assert (N : sourceName (step w e) = sourceName w)
      by (rewrite E; reflexivity).
    assert (T : sourceText (step w e) = sourceText w)
      by (rewrite E; reflexivity).
    assert (A : forall cs, autosave (step w e) cs = autosave w cs).
    { intros cs. unfold autosave. rewrite N, T. reflexivity. }
    change (play w (e :: ops)) with (play (step w e) ops).
    repeat split.
    + rewrite I1, E. reflexivity.
    + congruence.
    + congruence.
    + rewrite I4, E. reflexivity.
    + eapply Forall2_same_content_trans; eassumption.
    + exists (autosave w (cards (step w e)) :: saves). repeat split.
      * rewrite S1. rewrite E at 1. cbn. rewrite <- app_assoc. reflexivity.
      * cbn. rewrite S2. reflexivity.
      * constructor; [eexists; reflexivity|].
        eapply Forall_impl; [|exact S3]. intros c [cs ->]. exists cs. apply A.
      * intros _. destruct ops as [|e' ops'].
        -- exists []. destruct saves; [reflexivity | discriminate].
        -- destruct S4 as [earlier ->]; [discriminate|].
           exists (autosave w (cards (step w e)) :: earlier).
           rewrite A. reflexivity.
Qed.

(** X13: the answer to the request a review action or "new session" has
    sent, a failure as much as a success, only marks the request as
    answered: no variable of the page changes, no error appears, and what
    is rendered stays the same. *)
Theorem detached_answer_X13 : forall w e r,
  is_review_op e = true \/ e = NewSession ->
  step (step w e) (SessionReturned (List.length (calls w)) r) =
    set_calls
      (update_nth (List.length (calls w)) mark_answered (calls (step w e)))
      (step w e) /\
  render (step (step w e) (SessionReturned (List.length (calls w)) r))
    = render (step w e) /\
  error (step (step w e) (SessionReturned (List.length (calls w)) r))
    = error (step w e) /\
  cards (step (step w e) (SessionReturned (List.length (calls w)) r))
    = cards (step w e).
Proof.
  intros w e r H.
  assert (K : exists q,
            nth_error (calls (step w e)) (List.length (calls w)) =
              Some {| request := q; awaiter := Detached; answered := false |}
            /\ (q = ClearSession \/ exists n t cs, q = SaveSession n t cs)).
  { destruct H as [H| ->].
    - destruct (review_op_step w e H) as [E _]. rewrite E. cbn.
      rewrite nth_error_snoc. eexists. split; [reflexivity|]. right. eauto.
    - cbn. rewrite nth_error_snoc. eexists. split; [reflexivity|]. left.
      reflexivity. }
  destruct K as (q & K & Q).
  assert (E : step (step w e) (SessionReturned (List.length (calls w)) r) =
              set_calls
                (update_nth (List.length (calls w)) mark_answered
                            (calls (step w e)))
                (step w e)).
  { unfold step at 1. unfold handle, sessionReturned. rewrite K.
    destruct Q as [-> | (n & t & cs & ->)]; reflexivity. }
  rewrite E. repeat split.
Qed.

(** ** Generation, further *)

(** X14: the [saveSession] that follows a successful generation is
    awaited inside the same [try]: when it fails, the page that had just
    reached step [review] goes back to step [source] with that failure in
    [error]; the generated cards stay in memory and the source form comes
    back with the submitted text and name.  When it succeeds nothing
    changes. *)
Theorem save_failure_after_generation_X14 : forall w result cs,
  reachable w ->
  currentStep w = generating ->
  pendingGenerateResolve w <> None ->
  outcome_of result = Fulfilled cs ->
  (forall e,
     currentStep
       (play w [OnGenerate result;
                SessionReturned (List.length (calls w)) (Some e)]) = source /\
     error
       (play w [OnGenerate result;
                SessionReturned (List.length (calls w)) (Some e)])
       = Some (Js.message_of e) /\
     cards
       (play w [OnGenerate result;
                SessionReturned (List.length (calls w)) (Some e)]) = cs /\
     render
       (play w [OnGenerate result;
                SessionReturned (List.length (calls w)) (Some e)])
       = SourceView
           {| SourceSelector.initialText := sourceText w;
              SourceSelector.initialSourceName := sourceName w;
              SourceSelector.initialUrl := sourceUrl w |}) /\
  currentStep
    (play w [OnGenerate result;
             SessionReturned (List.length (calls w)) None]) = review /\
  error
    (play w [OnGenerate result;
             SessionReturned (List.length (calls w)) None]) = error w /\
  cards
    (play w [OnGenerate result;
             SessionReturned (List.length (calls w)) None]) = cs.
Proof.
  intros w result cs R G S O.
  destruct (reachable_slot_invariant w R) as [_ H2 H3 H4].
  destruct (pendingGenerateResolve w) as [p|] eqn:E; [|contradiction].
  destruct (H2 p eq_refl) as [-> _].
  unfold play. cbn [fold_left].
  rewrite step_OnGenerate, O, E.
  rewrite (try_settle_fulfils _ cs _ _ _ (H3 G) (H4 G)).
  assert (K : forall r v,
            calls v = calls w ++
              [{| request := SaveSession (sourceName w) (sourceText w) cs;
                  awaiter := AwaitedByGenerate; answered := false |}] ->
            step v (SessionReturned (List.length (calls w)) r) =
            finishHandleGenerate r
              (set_calls
                 (update_nth (List.length (calls w)) mark_answered (calls v))
                 v)).
  { intros r v Hv. unfold step, handle, sessionReturned.
    rewrite Hv, nth_error_snoc. reflexivity. }
  split; [intros e|]; rewrite K by reflexivity; cbn; repeat split.
Qed.

(** X15: "new session" pressed while a generation is awaited empties the
    page (step [source], no cards, empty name and text, the form
    re-created empty but for the URL) and sends [clearSession], but it
    does not cancel the request: the slot still holds its promise, and
    when the completion arrives the page jumps to step [review] with the
    delivered cards, and the session is saved under the name and text
    that were submitted although the page's own name and text are now
    empty. *)
Theorem new_session_keeps_request_X15 : forall w result cs,
  reachable w ->
  currentStep w = generating ->
  pendingGenerateResolve w <> None ->
  outcome_of result = Fulfilled cs ->
  render (step w NewSession) =
    SourceView
      {| SourceSelector.initialText := [];
         SourceSelector.initialSourceName := [];
         SourceSelector.initialUrl := sourceUrl w |} /\
  cards (step w NewSession) = [] /\
  requests (step w NewSession) = requests w ++ [ClearSession] /\
  pendingGenerateResolve (step w NewSession) = pendingGenerateResolve w /\
  currentStep (play w [NewSession; OnGenerate result]) = review /\
  cards (play w [NewSession; OnGenerate result]) = cs /\
  sourceName (play w [NewSession; OnGenerate result]) = [] /\
  sourceText (play w [NewSession; OnGenerate result]) = [] /\
  requests (play w [NewSession; OnGenerate result]) =
    requests w ++ [ClearSession; SaveSession (sourceName w) (sourceText w) cs].
Proof.
  intros w result cs R G S O.
  destruct (reachable_slot_invariant w R) as [_ H2 H3 H4].
  destruct (pendingGenerateResolve w) as [p|] eqn:E; [|contradiction].
  destruct (H2 p eq_refl) as [-> _].
  unfold play. cbn [fold_left].
  assert (N : step w NewSession = handleNewSession w) by reflexivity.
  rewrite N, step_OnGenerate, O.
  cbn [pendingGenerateResolve handleNewSession send set_calls set_step
       set_importResult set_error set_source set_cards].
  rewrite E.
  rewrite (try_settle_fulfils _ cs (sourceText w) (sourceName w));
    [| exact (H3 G) | exact (H4 G)].
  unfold requests, render. cbn. rewrite !map_app. cbn.
  rewrite <- app_assoc. repeat split.
Qed.

(** ** What a turn of the event loop can do *)

Lemma try_settle_shape : forall i o v,
  try_settle i o v = v \/
  (nth_error (promises v) i = Some Pending /\
   ((exists e,
       o = Rejected e /\
       try_settle i o v =
         set_step source
           (set_error (Some (Js.message_of e))
              (set_invocations
                 (update_nth i (set_promise o) (invocations v)) v))) \/
    (exists cs text name,
       o = Fulfilled cs /\
       try_settle i o v =
         send (SaveSession name text cs) AwaitedByGenerate
           (set_step review
              (set_cards cs
                 (set_invocations
                    (update_nth i (set_promise o) (invocations v)) v)))) \/
    try_settle i o v =
      set_invocations (update_nth i (set_promise o) (invocations v)) v)).
Proof.
  intros i o v. unfold try_settle, delivered.
  destruct (nth_error (promises v) i) as [[| |]|]; auto.
  right. split; [reflexivity|]. destruct o as [|cs|e].
  - right. right. reflexivity.
  - destruct (nth_error (submitted v) i) as [[t n]|].
    + right. left. exists cs, t, n. split; reflexivity.
    + right. right. reflexivity.
  - left. exists e. split; reflexivity.
Qed.

Lemma try_settle_entered : forall i o v w e,
  currentStep v = currentStep w ->
  entered w e (currentStep (try_settle i o v)).
Proof.
  intros i o v w e H. unfold entered.
  destruct (try_settle_shape i o v)
    as [-> | (_ & [(x & _ & ->) | [(cs & t & n & _ & ->) | ->]])]; cbn; auto.
Qed.

Lemma step_entered : forall w e, entered w e (currentStep (step w e)).
Proof.
  intros w e. destruct e.
  - right. right. right. left. split; [reflexivity | eauto].
  - left. reflexivity.
  - left. reflexivity.
  - left. reflexivity.
  - left. reflexivity.
  - left. reflexivity.
  - left. reflexivity.
  - rewrite step_ImportApproved. unfold handleImport.
    destruct (Nat.eqb (approvedCount (cards w)) 0) eqn:E.
    + left. reflexivity.
    + right. right. right. right. left. apply Nat.eqb_neq in E.
      repeat split. exact E.
  - right. left. reflexivity.
  - rewrite step_BridgeResponse. destruct (failure_of reply).
    + apply try_settle_entered. reflexivity.
    + left. reflexivity.
  - rewrite step_OnGenerate.
    destruct (match outcome_of result with
              | Rejected _ => pendingGenerateReject w
              | _ => pendingGenerateResolve w
              end) as [p|]; [|left; reflexivity].
    change (currentStep (set_pending None None ?v)) with (currentStep v).
    apply try_settle_entered. reflexivity.
  - rewrite step_TimerFired. destruct (pendingGenerateResolve w).
    + apply try_settle_entered. reflexivity.
    + left. reflexivity.
  - left. reflexivity.
  - unfold step, handle, importReturned. cbn [fold_left].
    destruct (nth_error (calls w) k) as [c|]; [|left; reflexivity].
    destruct (request c); try (left; reflexivity).
    destruct (awaiter c); try (left; reflexivity).
    destruct r; [left; reflexivity | right; right; left; reflexivity].
  - unfold step, handle, sessionReturned. cbn [fold_left].
    destruct (nth_error (calls w) k) as [c|] eqn:K; [|left; reflexivity].
    destruct (request c) eqn:Q; try (left; reflexivity);
      destruct (awaiter c) eqn:A; try (left; reflexivity).
    + destruct r; [right; left; reflexivity | left; reflexivity].
    + destruct r; [right; right; left; reflexivity|].
      right. right. right. right. right. split; [reflexivity|].
      exists k, c. auto.
Qed.

(** X16: how the steps are entered.  Whatever the state and the event, a
    turn of the event loop that ends in step [generating] either began
    there or handled a submission; one that ends in step [importing]
    either began there or handled a commit with an approved card; one
    that ends in step [done] either began there or handled the success
    of a [clearSession] awaited by [handleImport]. *)
Theorem step_entries_X16 : forall w e,
  (currentStep (step w e) = generating ->
   currentStep w = generating \/ exists d, e = Generate d) /\
  (currentStep (step w e) = importing ->
   currentStep w = importing \/
   (e = ImportApproved /\ approvedCount (cards w) <> 0)) /\
  (currentStep (step w e) = done ->
   currentStep w = done \/
   exists k c, e = SessionReturned k None /\
               nth_error (calls w) k = Some c /\
               request c = ClearSession /\ awaiter c = AwaitedByImport).
Proof.
  intros w e. pose proof (step_entered w e) as H. unfold entered in H.
  repeat split; intros G; rewrite G in H;
    destruct H as [H|[H|[H|[[H K]|[[H K]|[H K]]]]]];
    try discriminate; auto.
Qed.

Lemma Forall_update_nth : forall (A : Type) (P : A -> Prop) (f : A -> A) l n,
  (forall x, P x -> P (f x)) -> Forall P l -> Forall P (update_nth n f l).
Proof.
  intros A P f l n H F. revert n.
  induction F as [|x l Hx Hl IH]; intros [|n]; simpl; constructor; auto.
Qed.

Lemma Forall_snoc : forall (A : Type) (P : A -> Prop) l x,
  Forall P l -> P x -> Forall P (l ++ [x]).
Proof. intros A P l x H K. apply Forall_app. split; auto. Qed.

Lemma import_request_ok_answered : forall l k,
  Forall import_request_ok l ->
  Forall import_request_ok (update_nth k mark_answered l).
Proof.
  intros l k. apply Forall_update_nth. intros c H sent deck tags Q.
  exact (H sent deck tags Q).
Qed.

Lemma import_request_ok_other : forall q a,
  (forall sent deck tags, q <> ImportApprovedCards sent deck tags) ->
  import_request_ok {| request := q; awaiter := a; answered := false |}.
Proof. intros q a H sent deck tags Q. cbn in Q. destruct (H _ _ _ Q). Qed.

Lemma import_request_ok_try_settle : forall i o v,
  Forall import_request_ok (calls v) ->
  Forall import_request_ok (calls (try_settle i o v)).
Proof.
  intros i o v H.
  destruct (try_settle_shape i o v)
    as [-> | (_ & [(x & _ & ->) | [(cs & t & n & _ & ->) | ->]])]; cbn; auto.
  apply Forall_snoc; [exact H|]. apply import_request_ok_other. discriminate.
Qed.

Lemma import_request_ok_step : forall w e,
  Forall import_request_ok (calls w) ->
  Forall import_request_ok (calls (step w e)).
Proof.
  intros w e H. destruct e;
    try (cbn; apply Forall_snoc;
         [exact H | apply import_request_ok_other; discriminate]);
    try exact H.
  - rewrite step_ImportApproved. unfold handleImport.
    destruct (Nat.eqb (approvedCount (cards w)) 0) eqn:E; [exact H|].
    cbn. apply Forall_snoc; [exact H|].
    intros sent deck tags Q. cbn in Q. inversion Q; subst; clear Q.
    apply Nat.eqb_neq in E. unfold approvedCount in E. repeat split.
    + intros N. rewrite N in E. contradiction.
    + apply Forall_forall. intros c I. apply filter_In in I.
      apply Z.eqb_eq. exact (proj2 I).
  - rewrite step_BridgeResponse. destruct (failure_of reply); [|exact H].
    apply import_request_ok_try_settle. exact H.
  - rewrite step_OnGenerate.
    change (calls (set_pending None None ?v)) with (calls v).
    destruct (match outcome_of result with
              | Rejected _ => pendingGenerateReject w
              | _ => pendingGenerateResolve w
              end) as [p|]; [|exact H].
    apply import_request_ok_try_settle. exact H.
  - rewrite step_TimerFired. destruct (pendingGenerateResolve w); [|exact H].
    apply import_request_ok_try_settle. exact H.
  - unfold step, handle, importReturned. cbn [fold_left].
    destruct (nth_error (calls w) k) as [c|]; [|exact H].
    destruct (request c); try exact H. destruct (awaiter c); try exact H.
    destruct r; cbn.
    + apply Forall_snoc; [apply import_request_ok_answered, H|].
      apply import_request_ok_other. discriminate.
    + apply import_request_ok_answered, H.
  - unfold step, handle, sessionReturned. cbn [fold_left].
    destruct (nth_error (calls w) k) as [c|]; [|exact H].
    destruct (request c); try exact H; destruct (awaiter c); try exact H;
      destruct r; cbn; apply import_request_ok_answered, H.
Qed.

(** X17: every [importApprovedCards] request the page has ever sent
    carries at least one card, only cards of status 1, no additional
    tags, and is awaited by [handleImport]: an empty import or the import
    of a card that is not approved never happens. *)
Theorem import_requests_X17 : forall w,
  reachable w ->
  forall c sent deck tags,
    In c (calls w) ->
    request c = ImportApprovedCards sent deck tags ->
    sent <> [] /\ Forall (fun x => status x = 1%Z) sent /\ tags = [] /\
    awaiter c = AwaitedByImport.
Proof.
  intros w (decks & session & es & R).
  assert (G : forall es v, Forall import_request_ok (calls v) ->
              run v es = Some w -> Forall import_request_ok (calls w)).
  { clear. induction es as [|e es IH]; simpl; intros v H R.
    - inversion R; subst; exact H.
    - destruct (enabled v e); [|discriminate].
      apply (IH (step v e)); [apply import_request_ok_step, H | exact R]. }
  assert (F : Forall import_request_ok (calls w)).
  { apply (G es (create decks session)); [|exact R].
    cbn. constructor; [|constructor].
    apply import_request_ok_other. discriminate. }
  intros c sent deck tags I Q.
  rewrite Forall_forall in F. exact (F c I sent deck tags Q).
Qed.

(** ** Promises and timers *)

Lemma promises_try_settle_cases : forall i o v,
  promises (try_settle i o v) = promises v \/
  (nth_error (promises v) i = Some Pending /\
   promises (try_settle i o v) = update_nth i (fun _ => o) (promises v)).
Proof.
  intros i o v. rewrite promises_try_settle.
  destruct (nth_error (promises v) i) as [[| |]|]; auto.
Qed.

Lemma promises_step_cases : forall w e,
  promises (step w e) = promises w \/
  promises (step w e) = promises w ++ [Pending] \/
  exists j o,
    nth_error (promises w) j = Some Pending /\
    promises (step w e) = update_nth j (fun _ => o) (promises w).
Proof.
  intros w e.
  assert (T : forall i o v,
            promises v = promises w ->
            promises (try_settle i o v) = promises w \/
            promises (try_settle i o v) = promises w ++ [Pending] \/
            exists j o',
              nth_error (promises w) j = Some Pending /\
              promises (try_settle i o v)
                = update_nth j (fun _ => o') (promises w)).
  { intros i o v Pv.
    destruct (promises_try_settle_cases i o v) as [E|[E1 E2]];
      rewrite Pv in *; [left; exact E|].
    right. right. exists i, o. split; assumption. }
  destruct e; try (left; reflexivity).
  - right. left. unfold promises. cbn. rewrite map_app. reflexivity.
  - left. rewrite step_ImportApproved. unfold handleImport.
    destruct (Nat.eqb (approvedCount (cards w)) 0); reflexivity.
  - rewrite step_BridgeResponse.
    assert (Pv : promises (set_pending None None (responded_at i w))
                 = promises w).
    { apply (marked_observations mark_responded i w); auto. }
    destruct (failure_of reply); [apply T; exact Pv | left; exact Pv].
  - rewrite step_OnGenerate.
    change (promises (set_pending None None ?v)) with (promises v).
    destruct (match outcome_of result with
              | Rejected _ => pendingGenerateReject w
              | _ => pendingGenerateResolve w
              end) as [p|]; [apply T; reflexivity | left; reflexivity].
  - rewrite step_TimerFired.
    assert (Pv : promises (set_pending None None (fired_at i w))
                 = promises w).
    { apply (marked_observations mark_fired i w); auto. }
    destruct (pendingGenerateResolve w); [apply T; exact Pv | left; exact Pv].
  - left. unfold step, handle, importReturned. cbn [fold_left].
    destruct (nth_error (calls w) k) as [c|]; [|reflexivity].
    destruct (request c); try reflexivity.
    destruct (awaiter c); try reflexivity. destruct r; reflexivity.
  - left. unfold step, handle, sessionReturned. cbn [fold_left].
    destruct (nth_error (calls w) k) as [c|]; [|reflexivity].
    destruct (request c); try reflexivity;
      destruct (awaiter c); try reflexivity; destruct r; reflexivity.
Qed.

(** X18: an outcome is final.  Once the promise of an invocation is
    fulfilled or rejected, no event changes it: not a completion that
    comes late, not a timer, not a second answer to the bridge command,
    not a new submission. *)
Theorem outcome_final_X18 : forall w e i o,
  nth_error (promises w) i = Some o ->
  o <> Pending ->
  nth_error (promises (step w e)) i = Some o.
Proof.
  intros w e i o H N.
  destruct (promises_step_cases w e) as [-> | [-> | (j & o' & P & ->)]].
  - exact H.
  - rewrite nth_error_app1; [exact H|]. apply nth_error_Some. congruence.
  - rewrite (nth_error_update_const _ _ j i o' o H).
    destruct (Nat.eqb j i) eqn:E; [|reflexivity].
    apply Nat.eqb_eq in E. subst. congruence.
Qed.

(** X19: a timer left over from an invocation that is already resolved,
    running while a later request is awaited, takes the slot away from
    that request without resolving it: the page stays in step
    [generating] with the promise pending, and from then on neither the
    request's own timer nor a completion changes that. *)
Theorem leftover_timer_X19 : forall w i,
  reachable w ->
  currentStep w = generating ->
  pendingGenerateResolve w <> None ->
  nth_error (promises w) i <> Some Pending ->
  i <> latest w /\
  pendingGenerateResolve (step w (TimerFired i)) = None /\
  pendingGenerateReject (step w (TimerFired i)) = None /\
  currentStep (step w (TimerFired i)) = generating /\
  nth_error (promises (step w (TimerFired i))) (latest w) = Some Pending /\
  currentStep (play w [TimerFired i; TimerFired (latest w)]) = generating /\
  nth_error (promises (play w [TimerFired i; TimerFired (latest w)]))
            (latest w) = Some Pending /\
  (forall result,
     step (step w (TimerFired i)) (OnGenerate result)
     = step w (TimerFired i)).
Proof.
  intros w i R G S N.
  destruct (reachable_slot_invariant w R) as [_ _ H3 _]. specialize (H3 G).
  assert (Pv : promises (set_pending None None (fired_at i w)) = promises w).
  { apply (marked_observations mark_fired i w); auto. }
  assert (E : step w (TimerFired i) = set_pending None None (fired_at i w)).
  { rewrite step_TimerFired.
    destruct (pendingGenerateResolve w); [|contradiction].
    unfold try_settle. rewrite Pv.
    destruct (nth_error (promises w) i) as [[| |]|]; try reflexivity.
    contradiction. }
  unfold play. cbn [fold_left]. rewrite E.
  assert (E2 : step (set_pending None None (fired_at i w))
                    (TimerFired (latest w))
               = fired_at (latest w) (set_pending None None (fired_at i w))).
  { rewrite step_TimerFired. reflexivity. }
  rewrite E2.
  assert (P2 : promises (fired_at (latest w)
                           (set_pending None None (fired_at i w)))
               = promises w).
  { rewrite <- Pv.
    apply (marked_observations mark_fired (latest w)
             (set_pending None None (fired_at i w))); auto. }
  rewrite P2, Pv. repeat split; auto.
  - intros K. subst. contradiction.
  - intros result. apply completion_noop; reflexivity.
Qed.

(** ** Retrying and committing *)

Lemma source_fields_step : forall w e,
  (exists d, e = Generate d) \/ e = NewSession \/
  (sourceText (step w e) = sourceText w /\
   sourceName (step w e) = sourceName w /\
   sourceUrl (step w e) = sourceUrl w).
Proof.
  intros w e.
  assert (T : forall i o v,
            sourceText (try_settle i o v) = sourceText v /\
            sourceName (try_settle i o v) = sourceName v /\
            sourceUrl (try_settle i o v) = sourceUrl v).
  { intros i o v.
    destruct (try_settle_shape i o v)
      as [-> | (_ & [(x & _ & ->) | [(cs & t & n & _ & ->) | ->]])];
      repeat split. }
  destruct e; try (right; right; repeat split; fail).
  - left. eauto.
  - right. right. rewrite step_ImportApproved. unfold handleImport.
    destruct (Nat.eqb (approvedCount (cards w)) 0); repeat split.
  - right. left. reflexivity.
  - right. right. rewrite step_BridgeResponse.
    destruct (failure_of reply); [|repeat split].
    exact (T i _ (set_pending None None (responded_at i w))).
  - right. right. rewrite step_OnGenerate.
    destruct (match outcome_of result with
              | Rejected _ => pendingGenerateReject w
              | _ => pendingGenerateResolve w
              end) as [p|]; [|repeat split].
    destruct (T p (outcome_of result) w) as (A & B & C). repeat split; auto.
  - right. right. rewrite step_TimerFired.
    destruct (pendingGenerateResolve w); [|repeat split].
    exact (T i _ (set_pending None None (fired_at i w))).
  - right. right. unfold step, handle, importReturned. cbn [fold_left].
    destruct (nth_error (calls w) k) as [c|]; [|repeat split].
    destruct (request c); try (repeat split; fail).
    destruct (awaiter c); try (repeat split; fail).
    destruct r; repeat split.
  - right. right. unfold step, handle, sessionReturned. cbn [fold_left].
    destruct (nth_error (calls w) k) as [c|]; [|repeat split].
    destruct (request c); try (repeat split; fail);
      destruct (awaiter c); try (repeat split; fail);
      destruct r; repeat split.
Qed.

Lemma generate_payload : forall v d,
  enabled v (Generate d) = true ->
  Js.trim (sourceText (step v (Generate d))) <> [] /\
  sourceName (step v (Generate d)) <> [].
Proof.
  intros v d En. cbn in En. apply andb_true_iff in En. destruct En as [En N].
  apply andb_true_iff in En. destruct En as [_ T].
  change (sourceText (step v (Generate d))) with (SourceSelector.text d).
  change (sourceName (step v (Generate d))) with (SourceSelector.name d).
  split.
  - destruct (Js.trim (SourceSelector.text d)); [discriminate T|].
    discriminate.
  - destruct (SourceSelector.name d); [discriminate N | discriminate].
Qed.

Lemma holds_payload_run : forall es v w,
  holds_payload v -> run v es = Some w -> holds_payload w.
Proof.
  induction es as [|e es IH]; simpl; intros v w H R.
  - inversion R; subst; exact H.
  - destruct (enabled v e) eqn:En; [|discriminate].
    apply (IH (step v e)); [|exact R]. clear IH R. intros G.
    destruct (source_fields_step v e) as [[d ->] | [-> | (A & B & _)]].
    + apply generate_payload. exact En.
    + discriminate G.
    + pose proof (step_entered v e) as S. unfold entered in S.
      rewrite G in S.
      destruct S as [S|[S|[S|[[_ [d ->]]|[[S _]|[S _]]]]]];
        try discriminate.
      * rewrite A, B. apply H. symmetry. exact S.
      * apply generate_payload. exact En.
Qed.

Lemma reachable_holds_payload : forall w, reachable w -> holds_payload w.
Proof.
  intros w (decks & session & es & R).
  apply (holds_payload_run es (create decks session)); [|exact R].
  intros G. cbn in G. destruct (hasSession session); discriminate.
Qed.

Lemma generation_failure_step : forall w e msg,
  reachable w ->
  currentStep w = generating ->
  generation_failure w e msg ->
  currentStep (step w e) = source /\ error (step w e) = Some msg.
Proof.
  intros w e msg R G F.
  destruct (reachable_slot_invariant w R) as [H1 H2 H3 _]. specialize (H3 G).
  assert (K : forall x v,
             promises v = promises w ->
             currentStep (try_settle (latest w) (Rejected x) v) = source /\
             error (try_settle (latest w) (Rejected x) v)
               = Some (Js.message_of x)).
  { intros x v Pv. rewrite try_settle_rejects by (rewrite Pv; exact H3).
    split; reflexivity. }
  destruct F as [reply x Fx | result x Ox Sx | Sx].
  - rewrite step_BridgeResponse, Fx. apply K.
    apply (marked_observations mark_responded (latest w) w); auto.
  - rewrite step_OnGenerate, Ox.
    destruct (pendingGenerateReject w) as [p|] eqn:E; [|contradiction].
    assert (E' : pendingGenerateResolve w = Some p) by congruence.
    destruct (H2 p E') as [-> _].
    destruct (K x w eq_refl) as [A B]. split; [exact A | exact B].
  - rewrite step_TimerFired.
    destruct (pendingGenerateResolve w) as [p|] eqn:E; [|contradiction].
    exact (K (Js.ErrorObj (Js.lit "Generation timed out after 2 minutes"))
             (set_pending None None (fired_at (latest w) w))
             (proj1 (marked_observations mark_fired (latest w) w
                       (fun _ => eq_refl) (fun _ => eq_refl)
                       (fun _ => eq_refl)))).
Qed.

(** X21: retrying after a failure.  When a generation has failed, the
    source form the page renders again is ready to go: a click on
    Generate, with nothing typed, dispatches the text, the name and the
    URL of the failed submission, and the page accepts that event. *)
Theorem retry_after_failure_X21 : forall w e msg,
  reachable w ->
  currentStep w = generating ->
  generation_failure w e msg ->
  exists props,
    render (step w e) = SourceView props /\
    snd (SourceSelector.handleGenerate (SourceSelector.create props))
      = Some {| SourceSelector.text := sourceText w;
                SourceSelector.name := sourceName w;
                SourceSelector.url := sourceUrl w |} /\
    enabled (step w e)
            (Generate {| SourceSelector.text := sourceText w;
                         SourceSelector.name := sourceName w;
                         SourceSelector.url := sourceUrl w |}) = true.
Proof.
  intros w e msg R G F.
  destruct (generation_failure_step w e msg R G F) as [S _].
  destruct (reachable_holds_payload w R G) as [T N].
  assert (Fields : sourceText (step w e) = sourceText w /\
                   sourceName (step w e) = sourceName w /\
                   sourceUrl (step w e) = sourceUrl w).
  { destruct (source_fields_step w e) as [[d ->] | [-> | K]];
      [inversion F | inversion F | exact K]. }
  destruct Fields as (A & B & C).
  eexists. split; [unfold render; rewrite S, A, B, C; reflexivity|].
  unfold SourceSelector.handleGenerate. cbn [SourceSelector.create
    SourceSelector.textInput SourceSelector.sourceName SourceSelector.urlInput
    SourceSelector.initialText SourceSelector.initialSourceName
    SourceSelector.initialUrl enabled SourceSelector.text SourceSelector.name].
  rewrite S.
  destruct (Js.trim (sourceText w)); [contradiction|].
  destruct (sourceName w); [contradiction|].
  split; reflexivity.
Qed.

(** X20: which deck an import goes to.  A resumed session with an
    approved card, committed at once, is imported into the first deck of
    the list, into deck 0 when the list is empty; after a deck has been
    selected, into that deck.  The cards sent are the approved ones in
    both cases. *)
Theorem import_target_X20 : forall decks r d,
  hasSession r = true ->
  approvedCount (session_cards r) <> 0 ->
  requests (play (Route.setupAIFlashcardsPage decks (Some r))
                 [ImportApproved]) =
    [BridgeReady;
     ImportApprovedCards (filter (has_status 1) (session_cards r))
                         (hd 0%Z decks) []] /\
  requests (play (Route.setupAIFlashcardsPage decks (Some r))
                 [SelectDeck d; ImportApproved]) =
    [BridgeReady;
     ImportApprovedCards (filter (has_status 1) (session_cards r)) d []].
Proof.
  intros decks r d H A. unfold play. cbn [fold_left].
  rewrite !step_ImportApproved.
  set (w0 := Route.setupAIFlashcardsPage decks (Some r)).
  assert (C : cards w0 = session_cards r).
  { unfold w0, Route.setupAIFlashcardsPage. cbn. rewrite H.
    apply map_copy_card. }
  assert (D : selectedDeckId w0 = hd 0%Z decks).
  { unfold w0, Route.setupAIFlashcardsPage. cbn.
    destruct decks as [|x l]; [reflexivity|]. cbn.
    destruct (Z.eqb_spec x 0); congruence. }
  assert (L : calls w0 =
              [{| request := BridgeReady; awaiter := Detached;
                  answered := false |}]) by reflexivity.
  apply Nat.eqb_neq in A. unfold handleImport, requests.
  cbn [step handle fold_left cards set_selectedDeckId].
  rewrite C, A.
  cbn [calls send set_calls set_error set_step cards selectedDeckId
       set_selectedDeckId].
  rewrite C, D, L. split; reflexivity.
Qed.

(** ** The further statements at sample inputs *)

Lemma url_fetch_success_X2_witness :
  example_url <> [] /\
  SourceSelector.fetchUrlViaBackend example_url fetched_page
    = inl {| SourceSelector.fetched_text :=
               Js.lit "Paris is the capital of France.";
             SourceSelector.fetched_sourceName := example_url |} /\
  exists err text name,
    fetched_page = SourceSelector.FetchObject err text name /\
    Js.truthy err = false.
Proof.
  assert (U : example_url <> []) by (vm_compute; discriminate).
  assert (F : SourceSelector.fetchUrlViaBackend example_url fetched_page
              = inl {| SourceSelector.fetched_text :=
                         Js.lit "Paris is the capital of France.";
                       SourceSelector.fetched_sourceName := example_url |})
    by reflexivity.
  split; [exact U|]. split; [exact F|].
  destruct (url_fetch_success_X2 example_url fetched_page _ typed U F)
    as (err & text & name & A & B & _).
  exists err, text, name. split; [exact A | exact B].
Defined.

Lemma url_fetch_failure_X3_witness :
  SourceSelector.fetchUrlViaBackend example_url unreadable
    = inr (Js.ErrorObj (Js.lit "Unexpected end of JSON input")) /\
  SourceSelector.textInput
    (SourceSelector.resumeHandleUrlFetch
       (inr (Js.ErrorObj (Js.lit "Unexpected end of JSON input"))) typed)
    = SourceSelector.textInput typed.
Proof.
  assert (F : SourceSelector.fetchUrlViaBackend example_url unreadable
              = inr (Js.ErrorObj (Js.lit "Unexpected end of JSON input")))
    by reflexivity.
  split; [exact F|].
  exact (proj1 (proj2 (proj2 (proj2
           (url_fetch_failure_X3 example_url unreadable _ typed F))))).
Defined.

Lemma fetch_then_generate_X4_witness :
  Js.trim (SourceSelector.urlInput typed_with_url) <> [] /\
  Js.truthy None = false /\
  snd (SourceSelector.handleGenerate
         (fetch_url typed_with_url
            (SourceSelector.FetchObject None None None))) = None.
Proof.
  assert (U : Js.trim (SourceSelector.urlInput typed_with_url) <> [])
    by (vm_compute; discriminate).
  assert (T : Js.truthy None = false) by reflexivity.
  split; [exact U|]. split; [exact T|].
  exact (proj1 (proj2 (fetch_then_generate_X4 typed_with_url None None None
                         U T) eq_refl)).
Defined.

Lemma unsupported_file_X5_witness :
  SourceSelector.is_text_file slides = false /\
  SourceSelector.sourceName (fst (SourceSelector.processFile slides typed))
    = Js.lit "slides.pdf" /\
  SourceSelector.textInput (fst (SourceSelector.processFile slides typed))
    = SourceSelector.textInput typed.
Proof.
  assert (U : SourceSelector.is_text_file slides = false) by reflexivity.
  pose proof (unsupported_file_X5 slides typed U) as T.
  split; [exact U|]. split; [exact (proj1 (proj2 T))|].
  exact (proj1 (proj2 (proj2 T))).
Defined.

Lemma setup_without_session_X7_witness :
  currentStep (Route.setupAIFlashcardsPage [1%Z] None) = source /\
  cards (Route.setupAIFlashcardsPage [1%Z] None) = [].
Proof.
  pose proof (setup_without_session_X7 [1%Z] None I) as T.
  split; [exact (proj1 T) | exact (proj1 (proj2 T))].
Defined.

Lemma setup_resumes_session_X8_witness :
  hasSession stored = true /\
  currentStep (Route.setupAIFlashcardsPage [1%Z] (Some stored)) = review /\
  cards (Route.setupAIFlashcardsPage [1%Z] (Some stored))
    = session_cards stored.
Proof.
  assert (H : hasSession stored = true) by reflexivity.
  pose proof (setup_resumes_session_X8 [1%Z] stored H) as T.
  split; [exact H|]. split; [exact (proj1 T) | exact (proj1 (proj2 T))].
Defined.

Lemma review_autosave_X12_witness :
  forallb is_review_op [ApproveCard (Js.lit "c1"); RejectAll] = true /\
  currentStep (play restored [ApproveCard (Js.lit "c1"); RejectAll])
    = currentStep restored.
Proof.
  assert (H : forallb is_review_op [ApproveCard (Js.lit "c1"); RejectAll]
              = true) by reflexivity.
  split; [exact H|].
  exact (proj1 (review_autosave_X12 _ restored H)).
Defined.

Lemma detached_answer_X13_witness :
  (is_review_op ApproveAll = true \/ ApproveAll = NewSession) /\
  error (step (step restored ApproveAll)
              (SessionReturned (List.length (calls restored))
                               (Some storage_failure)))
    = error (step restored ApproveAll).
Proof.
  assert (H : is_review_op ApproveAll = true \/ ApproveAll = NewSession)
    by (left; reflexivity).
  split; [exact H|].
  exact (proj1 (proj2 (proj2
           (detached_answer_X13 restored ApproveAll (Some storage_failure)
                                H)))).
Defined.

Lemma save_failure_after_generation_X14_witness :
  reachable waiting /\
  currentStep waiting = generating /\
  pendingGenerateResolve waiting <> None /\
  outcome_of (completed [capital 0]) = Fulfilled [capital 0] /\
  currentStep
    (play waiting
       [OnGenerate (completed [capital 0]);
        SessionReturned (List.length (calls waiting)) (Some storage_failure)])
    = source.
Proof.
  assert (G : currentStep waiting = generating)
    by (vm_compute; reflexivity).
  assert (S : pendingGenerateResolve waiting <> None)
    by (vm_compute; discriminate).
  assert (O : outcome_of (completed [capital 0]) = Fulfilled [capital 0])
    by reflexivity.
  split; [exact reachable_waiting|]. split; [exact G|]. split; [exact S|].
  split; [exact O|].
  exact (proj1 (proj1 (save_failure_after_generation_X14
                         waiting (completed [capital 0]) [capital 0]
                         reachable_waiting G S O) storage_failure)).
Defined.

Lemma new_session_keeps_request_X15_witness :
  reachable waiting /\
  currentStep waiting = generating /\
  pendingGenerateResolve waiting <> None /\
  outcome_of (completed [capital 0]) = Fulfilled [capital 0] /\
  cards (step waiting NewSession) = [].
Proof.
  assert (G : currentStep waiting = generating)
    by (vm_compute; reflexivity).
  assert (S : pendingGenerateResolve waiting <> None)
    by (vm_compute; discriminate).
  assert (O : outcome_of (completed [capital 0]) = Fulfilled [capital 0])
    by reflexivity.
  split; [exact reachable_waiting|]. split; [exact G|]. split; [exact S|].
  split; [exact O|].
  exact (proj1 (proj2 (new_session_keeps_request_X15
                         waiting (completed [capital 0]) [capital 0]
                         reachable_waiting G S O))).
Defined.

Lemma reachable_import_run : reachable (after import_run).
Proof. apply reachable_after. vm_compute. discriminate. Qed.

Lemma reachable_second_request : reachable second_request.
Proof. apply reachable_after. vm_compute. discriminate. Qed.

Lemma import_requests_X17_witness :
  reachable (after import_run) /\
  In (import_call (after import_run) [capital 1])
     (calls (after import_run)) /\
  [capital 1] <> [].
Proof.
  assert (M : In (import_call (after import_run) [capital 1])
                 (calls (after import_run))).
  { vm_compute. do 4 right. left. reflexivity. }
  assert (Q : request (import_call (after import_run) [capital 1])
              = ImportApprovedCards [capital 1] 1%Z [])
    by (vm_compute; reflexivity).
  split; [exact reachable_import_run|]. split; [exact M|].
  exact (proj1 (import_requests_X17 (after import_run) reachable_import_run
                  (import_call (after import_run) [capital 1])
                  [capital 1] 1%Z [] M Q)).
Defined.

Lemma outcome_final_X18_witness :
  nth_error (promises failed_once) 0
    = Some (Rejected (Js.ErrorObj (Js.lit "No API key configured"))) /\
  Rejected (Js.ErrorObj (Js.lit "No API key configured")) <> Pending /\
  nth_error (promises (step failed_once
                         (OnGenerate (completed [capital 0])))) 0
    = Some (Rejected (Js.ErrorObj (Js.lit "No API key configured"))).
Proof.
  assert (H : nth_error (promises failed_once) 0
              = Some (Rejected (Js.ErrorObj (Js.lit "No API key configured"))))
    by (vm_compute; reflexivity).
  assert (N : Rejected (Js.ErrorObj (Js.lit "No API key configured"))
              <> Pending) by discriminate.
  split; [exact H|]. split; [exact N|].
  exact (outcome_final_X18 failed_once (OnGenerate (completed [capital 0]))
           0 _ H N).
Defined.

Lemma leftover_timer_X19_witness :
  reachable second_request /\
  currentStep second_request = generating /\
  pendingGenerateResolve second_request <> None /\
  nth_error (promises second_request) 0 <> Some Pending /\
  pendingGenerateResolve (step second_request (TimerFired 0)) = None.
Proof.
  assert (G : currentStep second_request = generating)
    by (vm_compute; reflexivity).
  assert (S : pendingGenerateResolve second_request <> None)
    by (vm_compute; discriminate).
  assert (N : nth_error (promises second_request) 0 <> Some Pending)
    by (vm_compute; discriminate).
  split; [exact reachable_second_request|]. split; [exact G|].
  split; [exact S|]. split; [exact N|].
  exact (proj1 (proj2 (leftover_timer_X19 second_request 0
                         reachable_second_request G S N))).
Defined.

Lemma import_target_X20_witness :
  hasSession stored = true /\
  approvedCount (session_cards stored) <> 0 /\
  requests (play (Route.setupAIFlashcardsPage [7%Z] (Some stored))
                 [SelectDeck 9; ImportApproved]) =
    [BridgeReady;
     ImportApprovedCards (filter (has_status 1) (session_cards stored))
                         9%Z []].
Proof.
  assert (H : hasSession stored = true) by reflexivity.
  assert (A : approvedCount (session_cards stored) <> 0)
    by (vm_compute; discriminate).
  split; [exact H|]. split; [exact A|].
  exact (proj2 (import_target_X20 [7%Z] stored 9%Z H A)).
Defined.

Lemma retry_after_failure_X21_witness :
  reachable overdue /\
  currentStep overdue = generating /\
  generation_failure overdue (TimerFired 0)
    (Js.lit "Generation timed out after 2 minutes") /\
  exists props, render (step overdue (TimerFired 0)) = SourceView props.
Proof.
  assert (G : currentStep overdue = generating)
    by (vm_compute; reflexivity).
  assert (S : pendingGenerateResolve overdue <> None)
    by (vm_compute; discriminate).
  pose proof (timed_out overdue S) as F.
  split; [exact reachable_overdue|]. split; [exact G|]. split; [exact F|].
  destruct (retry_after_failure_X21 overdue (TimerFired 0) _
              reachable_overdue G F) as (props & P & _).
  exists props. exact P.
Defined.

(** ** Where the page departs from its contract *)

(** C2, on the run [retry_after_timeout] followed by [late_completion]:
    the first request has been resolved by its timeout, yet the
    completion signal that arrives for it afterwards does change
    something.  The callback carries no identity of its request and reads
    the one slot, which the retry has filled with the functions of the
    second promise: the late completion fulfils the second promise with
    the cards of the first request, the page leaves step [generating] for
    [review] with those cards, and they are saved. *)
Theorem late_completion_crosses_requests_C2 :
  exists w1 w2,
    run (create [1%Z] no_session) retry_after_timeout = Some w1 /\
    nth_error (promises w1) 0 =
      Some (Rejected
              (Js.ErrorObj (Js.lit "Generation timed out after 2 minutes"))) /\
    nth_error (promises w1) 1 = Some Pending /\
    pendingGenerateResolve w1 = Some 1 /\
    currentStep w1 = generating /\
    enabled w1 late_completion = true /\
    w2 = step w1 late_completion /\
    w2 <> w1 /\
    nth_error (promises w2) 1 = Some (Fulfilled [capital 0]) /\
    currentStep w2 = review /\
    cards w2 = [capital 0] /\
    requests w2 =
      requests w1 ++
      [SaveSession (SourceSelector.name paris) (SourceSelector.text paris)
                   [capital 0]].
Proof.
  eexists. eexists. split; [vm_compute; reflexivity|].
  do 5 (split; [reflexivity|]).
  split; [reflexivity|].
  split; [intros H; apply (f_equal currentStep) in H; discriminate H|].
  repeat split.
Qed.

(** In step [source] the markup renders the source form only: the page's
    [error] is no part of what is rendered, and the form is created with
    no error of its own. *)
Lemma source_view_without_error : forall w,
  currentStep w = source ->
  (forall e, render (set_error e w) = render w) /\
  exists props,
    render w = SourceView props /\
    SourceSelector.error (SourceSelector.create props) = None.
Proof.
  intros w H. unfold render.
  cbn [currentStep set_error sourceText sourceName sourceUrl].
  rewrite H. split; [reflexivity|]. eexists. split; reflexivity.
Qed.

(** C6, on two runs.  On [immediate_failure_run] the generation fails and
    the page is back in step [source] with the message in its variable
    [error] and the submitted text and name kept, but the message is not
    shown: what is rendered is the source form alone, created with no
    error, and it would be the same with any other value of [error].  On
    [slot_lost_run] the slot of the awaited request has been nulled by
    the timer of an earlier invocation; the failure the provider then
    reports through the completion callback changes nothing: the page
    stays in step [generating] with no error. *)
Theorem failure_not_surfaced_C6 :
  (exists w props,
     run (create [1%Z] no_session) immediate_failure_run = Some w /\
     currentStep w = source /\
     error w = Some (Js.lit "No API key configured") /\
     sourceText w = SourceSelector.text paris /\
     sourceName w = SourceSelector.name paris /\
     render w = SourceView props /\
     SourceSelector.textInput (SourceSelector.create props)
       = SourceSelector.text paris /\
     SourceSelector.error (SourceSelector.create props) = None /\
     forall e, render (set_error e w) = render w) /\
  (exists w,
     run (create [1%Z] no_session) slot_lost_run = Some w /\
     currentStep w = generating /\
     nth_error (promises w) (latest w) = Some Pending /\
     enabled w provider_failure = true /\
     step w provider_failure = w /\
     currentStep (step w provider_failure) = generating /\
     error (step w provider_failure) = None).
Proof.
  split.
  - eexists. eexists. split; [vm_compute; reflexivity|].
    do 4 (split; [reflexivity|]).
    split; [reflexivity|]. repeat split.
  - eexists. split; [vm_compute; reflexivity|].
    do 3 (split; [reflexivity|]).
    match goal with
    | |- step ?v _ = _ /\ _ =>
        assert (S : step v provider_failure = v)
          by (apply completion_noop; reflexivity)
    end.
    rewrite S. repeat split.
Qed.

(** C7, on the run [clear_failure_run]: [importApprovedCards] has
    returned its result (one card imported), yet the page is not in step
    [done].  The [clearSession] awaited in the same [try] has failed, so
    the page is back in step [review] showing that failure as its error,
    the approved card is still there, the commit is available again, and
    committing sends the same card to [importApprovedCards] a second
    time. *)
Theorem clear_failure_after_import_C7 :
  exists w,
    run (create [1%Z] no_session) clear_failure_run = Some w /\
    importResult w = Some (1%Z, 0%Z) /\
    currentStep w = review /\
    currentStep w <> done /\
    error w = Some (Js.message_of storage_failure) /\
    cards w = [capital 1] /\
    enabled w ImportApproved = true /\
    requests (step w ImportApproved) =
      requests w ++ [ImportApprovedCards [capital 1] 1%Z []] /\
    In (ImportApprovedCards [capital 1] 1%Z []) (requests w).
Proof.
  eexists. split; [vm_compute; reflexivity|].
  do 2 (split; [reflexivity|]).
  split; [discriminate|].
  do 4 (split; [reflexivity|]).
  do 4 right. left. reflexivity.
Qed.
